(** * todosapp: the todo REST API of [backend/index.ts]

    A shallow embedding of the Bun server in [backend/index.ts]: the SQLite
    table [todos], the five route handlers under ["/api/todos"] and
    ["/api/todos/:id"], and the server's [error] callback.  Each handler is a
    computation in a small state-and-exception monad over the table, so that a
    thrown JavaScript exception (a body that does not parse, a failed SQL
    statement) reaches the [error] callback just as in the source. *)

From Stdlib Require Import List String Ascii Bool ZArith NArith QArith Lia.
From Stdlib Require Import Sorting.Sorted Sorting.Permutation.
Import ListNotations.
Close Scope Q_scope.

Set Warnings "-register-all".

(** ** JavaScript strings *)

(** A JavaScript string is a sequence of UTF-16 code units. *)
Definition char16 := N.
Definition jsstring := list char16.

(** String literals of the source, which are all ASCII. *)
Definition lit (s : string) : jsstring :=
  map N_of_ascii (list_ascii_of_string s).

(** Comparison by code units; on the ASCII output of [toISOString] and of
    [randomUUID] this is SQLite's BINARY collation. *)
Definition str_compare (a b : jsstring) : comparison := list_compare N.compare a b.

Definition str_eqb (a b : jsstring) : bool :=
  match str_compare a b with Eq => true | _ => false end.

Definition str_ltb (a b : jsstring) : bool :=
  match str_compare a b with Lt => true | _ => false end.

(** The code units stripped by [String.prototype.trim]: ECMAScript WhiteSpace
    (TAB, VT, FF, ZWNBSP and the Unicode space separators) and LineTerminator
    (LF, CR, LS, PS). *)
Definition isWhiteSpace (c : char16) : bool :=
  ((c =? 9) || (c =? 10) || (c =? 11) || (c =? 12) || (c =? 13) || (c =? 32)
   || (c =? 160) || (c =? 5760) || ((8192 <=? c) && (c <=? 8202))
   || (c =? 8232) || (c =? 8233) || (c =? 8239) || (c =? 8287)
   || (c =? 12288) || (c =? 65279))%N.

Fixpoint trimStart (s : jsstring) : jsstring :=
  match s with
  | c :: s' => if isWhiteSpace c then trimStart s' else s
  | [] => []
  end.

Definition trimEnd (s : jsstring) : jsstring := rev (trimStart (rev s)).

Definition trim (s : jsstring) : jsstring := trimEnd (trimStart s).

(** Surrogate code units, and U+FFFD REPLACEMENT CHARACTER. *)
Definition isHighSurrogate (c : char16) : bool := ((55296 <=? c) && (c <=? 56319))%N.
Definition isLowSurrogate (c : char16) : bool := ((56320 <=? c) && (c <=? 57343))%N.
Definition isSurrogate (c : char16) : bool := isHighSurrogate c || isLowSurrogate c.
Definition replacement : char16 := 65533%N.

(** A string as a TEXT column gives it back.  The column holds UTF-8, so a
    bound string is written code point by code point: a high surrogate
    followed by a low one is one code point and comes back as it was, and a
    surrogate that is not part of such a pair comes back as U+FFFD.  This is
    [String.prototype.toWellFormed].  [prevHigh] tells whether the code unit
    before [s] is a high surrogate, which a low surrogate at the head of [s]
    then completes. *)
Fixpoint wellFormedFrom (prevHigh : bool) (s : jsstring) : jsstring :=
  match s with
  | [] => []
  | c :: s' =>
      (if isHighSurrogate c then
         match s' with
         | d :: _ => if isLowSurrogate d then c else replacement
         | [] => replacement
         end
       else if isLowSurrogate c then
         if prevHigh then c else replacement
       else c)
      :: wellFormedFrom (isHighSurrogate c) s'
  end.

Definition toWellFormed (s : jsstring) : jsstring := wellFormedFrom false s.

(** ** JSON values and the JavaScript values the handlers read *)

Inductive json :=
| JNull
| JBool (b : bool)
| JNum (q : Q)
| JStr (s : jsstring)
| JArr (elems : list json)
| JObj (members : list (jsstring * json)).

(** What a property read yields: a parsed JSON value or [undefined]. *)
Inductive value :=
| Undefined
| Val (j : json).

Inductive jstype := TUndefined | TObject | TBoolean | TNumber | TString.

Definition typeof (v : value) : jstype :=
  match v with
  | Undefined => TUndefined
  | Val JNull => TObject
  | Val (JBool _) => TBoolean
  | Val (JNum _) => TNumber
  | Val (JStr _) => TString
  | Val (JArr _) => TObject
  | Val (JObj _) => TObject
  end.

Definition jstype_eqb (a b : jstype) : bool :=
  match a, b with
  | TUndefined, TUndefined | TObject, TObject | TBoolean, TBoolean
  | TNumber, TNumber | TString, TString => true
  | _, _ => false
  end.

(** The code units of a value whose [typeof] is ["string"]. *)
Definition str_of (v : value) : jsstring :=
  match v with
  | Val (JStr s) => s
  | _ => []
  end.

(** ToBoolean, as used by [!text], [!text.trim()] and [completed ? 1 : 0]. *)
Definition truthy (v : value) : bool :=
  match v with
  | Undefined => false
  | Val JNull => false
  | Val (JBool b) => b
  | Val (JNum q) => negb (Qeq_bool q 0%Q)
  | Val (JStr s) => match s with [] => false | _ => true end
  | Val (JArr _) => true
  | Val (JObj _) => true
  end.

(** The own property [k] of a value built by [JSON.parse]; for a key given
    twice the later member wins.  The handlers read the keys ["text"] and
    ["completed"] only, which no prototype of an object, array, string,
    number or boolean defines, so the read of a non-object is [undefined]. *)
Definition prop (k : jsstring) (j : json) : value :=
  match j with
  | JObj members =>
      fold_left (fun acc m => if str_eqb (fst m) k then Val (snd m) else acc)
                members Undefined
  | _ => Undefined
  end.

(** ** The table [todos] *)

(** One row of
    [CREATE TABLE todos (id TEXT PRIMARY KEY, text TEXT NOT NULL,
                         completed INTEGER DEFAULT 0, createdAt TEXT NOT NULL)],
    as a SELECT gives it back. *)
Record Todo := mkTodo {
  id : jsstring;
  text : jsstring;
  completed : Z;
  createdAt : jsstring
}.

(** The rows in rowid (insertion) order. *)
Definition Db := list Todo.

Definition has_id (i : jsstring) (r : Todo) : bool := str_eqb (id r) i.

(** [SELECT * FROM todos WHERE id = ?] with [.get]: the row, or [null]. *)
Definition select_by_id (i : jsstring) (db : Db) : option Todo :=
  find (has_id i) db.

(** [INSERT INTO todos (id, text, completed, createdAt) VALUES (?, ?, 0, ?)];
    [None] when the primary key is taken and the statement fails.  The text
    is whatever the request sent, and is read back as the TEXT column holds
    it; the id and the timestamp bound here are the ASCII strings of
    [crypto.randomUUID()] and [toISOString()], which the column gives back
    as they are. *)
Definition insert (i t c : jsstring) (db : Db) : option Db :=
  if existsb (has_id i) db then None
  else Some (db ++ [mkTodo i (toWellFormed t) 0 c]).

(** [UPDATE todos SET completed = ? WHERE id = ?]. *)
Definition update_completed (v : Z) (i : jsstring) (db : Db) : Db :=
  map (fun r => if has_id i r
                then mkTodo (id r) (text r) v (createdAt r)
                else r) db.

(** [DELETE FROM todos WHERE id = ?]. *)
Definition delete_by_id (i : jsstring) (db : Db) : Db :=
  filter (fun r => negb (has_id i r)) db.

(** [ORDER BY createdAt DESC]: [r] goes in front of the first row that is not
    newer than it.  SQLite leaves the order of rows with equal keys open; this
    sort keeps them in rowid order. *)
Fixpoint insert_desc (r : Todo) (l : list Todo) : list Todo :=
  match l with
  | [] => [r]
  | y :: l' =>
      if str_ltb (createdAt r) (createdAt y) then y :: insert_desc r l'
      else r :: l
  end.

(** [SELECT * FROM todos ORDER BY createdAt DESC] with [.all]. *)
Definition select_all_desc (db : Db) : list Todo :=
  fold_right insert_desc [] db.

(** ** Requests and responses *)

(** The body of a request as [req.json()] sees it. *)
Inductive Body :=
| Unparseable
| Parsed (j : json).

(** What the runtime hands to the POST handler besides the request: two
    ASCII strings. *)
Record Env := mkEnv {
  randomUUID : jsstring;      (* crypto.randomUUID() *)
  toISOString : jsstring      (* new Date().toISOString() *)
}.

(** A request as dispatched by the [routes] table of [Bun.serve]. *)
Inductive Request :=
| GET_todos
| POST_todos (body : Body) (env : Env)
| GET_todo (i : jsstring)
| PATCH_todo (i : jsstring) (body : Body)
| DELETE_todo (i : jsstring).

Inductive ResponseBody :=
| NoBody
| Text (s : string)
| Json (j : json).

(** A response as the handler builds it: [headers] is the [headers] option
    given to the constructor.  The runtime adds a Content-Type of its own
    (text/plain for a string body, application/json for [Response.json]) and
    no CORS header. *)
Record Response := mkResponse {
  status : nat;
  body : ResponseBody;
  headers : list (string * string)
}.

Definition corsHeaders : list (string * string) :=
  [ ("Access-Control-Allow-Origin", "*");
    ("Access-Control-Allow-Methods", "GET, POST, PATCH, DELETE, OPTIONS");
    ("Access-Control-Allow-Headers", "Content-Type") ]%string.

(** A row as [Response.json] writes it, columns in table order. *)
Definition todo_json (r : Todo) : json :=
  JObj [ (lit "id", JStr (id r));
         (lit "text", JStr (text r));
         (lit "completed", JNum (inject_Z (completed r)));
         (lit "createdAt", JStr (createdAt r)) ].

(** The result of [.get]: a row or [null]. *)
Definition row_json (o : option Todo) : json :=
  match o with
  | Some r => todo_json r
  | None => JNull
  end.

(** ** The handler monad: table state and JavaScript exceptions *)

Inductive exn := SyntaxError | TypeError | SQLiteError.

Inductive outcome (A : Type) :=
| Return (a : A)
| Throw (e : exn).
Arguments Return {A} a.
Arguments Throw {A} e.

Definition M (A : Type) := Db -> Db * outcome A.

Definition ret {A} (a : A) : M A := fun db => (db, Return a).

Definition throw {A} (e : exn) : M A := fun db => (db, Throw e).

Definition bind {A B} (m : M A) (k : A -> M B) : M B :=
  fun db =>
    match m db with
    | (db', Return a) => k a db'
    | (db', Throw e) => (db', Throw e)
    end.

Declare Scope handler_scope.
Delimit Scope handler_scope with handler.
Notation "x <- m ;; k" := (bind m (fun x => k))
  (at level 61, m at next level, right associativity) : handler_scope.
Notation "m ;;; k" := (bind m (fun _ => k))
  (at level 61, right associativity) : handler_scope.
Local Open Scope handler_scope.

(** [db.query(...).get(id)], [.all()] and [.run(...)]. *)
Definition query_get (i : jsstring) : M (option Todo) :=
  fun db => (db, Return (select_by_id i db)).

Definition query_all : M (list Todo) :=
  fun db => (db, Return (select_all_desc db)).

Definition run_insert (i t c : jsstring) : M unit :=
  fun db =>
    match insert i t c db with
    | Some db' => (db', Return tt)
    | None => (db, Throw SQLiteError)
    end.

Definition run_update (v : Z) (i : jsstring) : M unit :=
  fun db => (update_completed v i db, Return tt).

Definition run_delete (i : jsstring) : M unit :=
  fun db => (delete_by_id i db, Return tt).

(** [await req.json()]. *)
Definition req_json (b : Body) : M json :=
  match b with
  | Unparseable => throw SyntaxError
  | Parsed j => ret j
  end.

(** [const { k } = j]: destructuring [null] throws, anything else is read. *)
Definition destructure (k : jsstring) (j : json) : M value :=
  match j with
  | JNull => throw TypeError
  | _ => ret (prop k j)
  end.

(** ** The route handlers *)

(** ["/api/todos"] GET. *)
Definition todos_GET : M Response :=
  todos <- query_all ;;
  ret (mkResponse 200 (Json (JArr (map todo_json todos))) corsHeaders).

(** ["/api/todos"] POST.  In
    [!text || typeof text !== "string" || !text.trim()] the call of [trim] is
    reached by a string only, whose code units [str_of] gives. *)
Definition todos_POST (b : Body) (env : Env) : M Response :=
  j <- req_json b ;;
  text <- destructure (lit "text") j ;;
  if negb (truthy text)
     || negb (jstype_eqb (typeof text) TString)
     || negb (truthy (Val (JStr (trim (str_of text))))) then
    ret (mkResponse 400 (Text "Invalid todo text") corsHeaders)
  else
    let id := randomUUID env in
    let createdAt := toISOString env in
    run_insert id (trim (str_of text)) createdAt ;;;
    todo <- query_get id ;;
    ret (mkResponse 201 (Json (row_json todo)) corsHeaders).

(** ["/api/todos/:id"] GET. *)
Definition todo_GET (i : jsstring) : M Response :=
  todo <- query_get i ;;
  match todo with
  | None => ret (mkResponse 404 (Text "Todo not found") corsHeaders)
  | Some r => ret (mkResponse 200 (Json (todo_json r)) corsHeaders)
  end.

(** ["/api/todos/:id"] PATCH. *)
Definition todo_PATCH (i : jsstring) (b : Body) : M Response :=
  j <- req_json b ;;
  completed <- destructure (lit "completed") j ;;
  if negb (jstype_eqb (typeof completed) TBoolean) then
    ret (mkResponse 400 (Text "Invalid request") corsHeaders)
  else
    todo <- query_get i ;;
    match todo with
    | None => ret (mkResponse 404 (Text "Todo not found") corsHeaders)
    | Some _ =>
        run_update (if truthy completed then 1 else 0)%Z i ;;;
        updated <- query_get i ;;
        ret (mkResponse 200 (Json (row_json updated)) corsHeaders)
    end.

(** ["/api/todos/:id"] DELETE. *)
Definition todo_DELETE (i : jsstring) : M Response :=
  todo <- query_get i ;;
  match todo with
  | None => ret (mkResponse 404 (Text "Todo not found") corsHeaders)
  | Some _ =>
      run_delete i ;;;
      ret (mkResponse 204 NoBody corsHeaders)
  end.

(** The [routes] table. *)
Definition routes (req : Request) : M Response :=
  match req with
  | GET_todos => todos_GET
  | POST_todos b env => todos_POST b env
  | GET_todo i => todo_GET i
  | PATCH_todo i b => todo_PATCH i b
  | DELETE_todo i => todo_DELETE i
  end.

(** The [error] callback of [Bun.serve]. *)
Definition error (e : exn) : Response :=
  mkResponse 500 (Text "Internal Server Error") [].

(** One request against the table: the handler runs, and an exception it
    throws is answered by [error]. *)
Definition serve (db : Db) (req : Request) : Db * Response :=
  match routes req db with
  | (db', Return resp) => (db', resp)
  | (db', Throw e) => (db', error e)
  end.

(** The tables that requests can produce from the empty one. *)
Inductive reachable : Db -> Prop :=
| reachable_empty : reachable []
| reachable_serve db req : reachable db -> reachable (fst (serve db req)).

(** ** Vocabulary of the properties *)

(** Timestamp [b] is not newer than timestamp [a]. *)
Definition not_newer (a b : jsstring) : Prop := str_ltb a b = false.

(** Row [b] may follow row [a] in a listing: [b] is not newer than [a]. *)
Definition may_follow (a b : Todo) : Prop :=
  not_newer (createdAt a) (createdAt b).

(** Code unit [d] is what a TEXT column gives back for [c]. *)
Definition read_back (c d : char16) : Prop := d = c \/ d = replacement.

(** The handler gave the response a header named [k]. *)
Definition sets_header (k : string) (resp : Response) : Prop :=
  exists v, In (k, v) (headers resp).

(** A string made of white space only; the empty string is one. *)
Definition blank (s : jsstring) : bool := forallb isWhiteSpace s.

(** What one request can do to the table. *)
Inductive table_step (db : Db) : Db -> Prop :=
| step_same : table_step db db
| step_insert i s c :
    trim s <> [] -> select_by_id i db = None ->
    table_step db (db ++ [mkTodo i (toWellFormed (trim s)) 0 c])
| step_update (b : bool) i :
    table_step db (update_completed (if b then 1 else 0)%Z i db)
| step_delete i :
    table_step db (delete_by_id i db).

(** The todo objects of a response: the elements of an array body, or the one
    JSON value of any other JSON body. *)
Definition returned_todos (resp : Response) : list json :=
  match body resp with
  | Json (JArr elems) => elems
  | Json j => [j]
  | _ => []
  end.

(** Sample requests. *)
Definition env1 : Env :=
  mkEnv (lit "8c1f0a52-6d1e-4b7a-9d53-2f1c6a0e4b11") (lit "2024-05-01T10:00:00.000Z").
Definition env2 : Env :=
  mkEnv (lit "0b9e7d34-51c2-4e0f-8a77-c3d2e1f0a922") (lit "2024-05-01T10:00:01.250Z").
Definition env3 : Env :=
  mkEnv (lit "f47ac10b-58cc-4372-a567-0e02b2c3d479") (lit "2024-05-02T08:30:00.000Z").

Definition text_body (s : string) : Body :=
  Parsed (JObj [(lit "text", JStr (lit s))]).

Definition completed_body (v : json) : Body :=
  Parsed (JObj [(lit "completed", v)]).

(** The table after [POST {text: "Buy milk"}] on an empty one. *)
Definition db1 : Db := fst (serve [] (POST_todos (text_body "Buy milk") env1)).

(** The row that request stores. *)
Definition row1 : Todo :=
  mkTodo (randomUUID env1) (lit "Buy milk") 0 (toISOString env1).

(** ** The server beyond the five operations *)

(** ["/api/*"] OPTIONS: the CORS preflight, [new Response(null, { headers })]. *)
Definition api_OPTIONS : Response := mkResponse 200 NoBody corsHeaders.

(** [fetch]: the fallback for unmatched routes. *)
Definition fetch : Response := mkResponse 404 (Text "Not Found") [].

(** Where the router of [Bun.serve] sends a request: to the preflight, to one
    of the five handlers, or to [fetch].  (The page served at ["/"] is a file
    and is left out.) *)
Inductive Route :=
| Preflight
| Api (req : Request)
| Unmatched.

Definition server (db : Db) (rt : Route) : Db * Response :=
  match rt with
  | Preflight => (db, api_OPTIONS)
  | Api req => serve db req
  | Unmatched => (db, fetch)
  end.

(** [SELECT COUNT( * ) as count FROM todos] and
    [SELECT COUNT( * ) as count FROM todos WHERE completed = 1], as the tests
    run them. *)
Definition count_all (db : Db) : nat := List.length db.

Definition count_completed (db : Db) : nat :=
  List.length (filter (fun r => (completed r =? 1)%Z) db).

(** * Properties *)

(** ** Strings *)

Section Strings.

Lemma str_compare_eq (a b : jsstring) : str_compare a b = Eq <-> a = b.
Proof. apply list_compare_refl, N.compare_eq_iff. Qed.

Lemma str_compare_antisym (a b : jsstring) :
  str_compare b a = CompOpp (str_compare a b).
Proof. apply list_compare_antisym; [apply N.compare_eq_iff | apply N.compare_antisym]. Qed.

Lemma N_compare_trans (x y z : N) (c : comparison) :
  N.compare x y = c -> N.compare y z = c -> N.compare x z = c.
Proof.
  destruct c; intros H1 H2.
  - apply N.compare_eq_iff in H1, H2. subst. apply N.compare_refl.
  - rewrite N.compare_lt_iff in *. lia.
  - rewrite N.compare_gt_iff in *. lia.
Qed.

Lemma str_compare_trans (a b c : jsstring) (o : comparison) :
  str_compare a b = o -> str_compare b c = o -> str_compare a c = o.
Proof.
  apply list_compare_trans;
    [apply N.compare_eq_iff | apply N_compare_trans | apply N.compare_antisym].
Qed.

Lemma str_eqb_eq (a b : jsstring) : str_eqb a b = true <-> a = b.
Proof.
  unfold str_eqb. rewrite <- str_compare_eq.
  destruct (str_compare a b); split; congruence.
Qed.

Lemma str_eqb_refl (a : jsstring) : str_eqb a a = true.
Proof. now apply str_eqb_eq. Qed.

Lemma str_eqb_neq (a b : jsstring) : str_eqb a b = false <-> a <> b.
Proof.
  rewrite <- str_eqb_eq. destruct (str_eqb a b); split; congruence.
Qed.

Lemma str_ltb_irrefl (a : jsstring) : str_ltb a a = false.
Proof.
  unfold str_ltb. now rewrite (proj2 (str_compare_eq a a) eq_refl).
Qed.

Lemma str_ltb_asym (a b : jsstring) : str_ltb a b = true -> str_ltb b a = false.
Proof.
  unfold str_ltb. rewrite (str_compare_antisym a b).
  destruct (str_compare a b); simpl; congruence.
Qed.

Lemma str_ltb_trans (a b c : jsstring) :
  str_ltb a b = true -> str_ltb b c = true -> str_ltb a c = true.
Proof.
  unfold str_ltb. intros Hab Hbc.
  destruct (str_compare a b) eqn:E1; try discriminate.
  destruct (str_compare b c) eqn:E2; try discriminate.
  now rewrite (str_compare_trans _ _ _ _ E1 E2).
Qed.

Lemma not_newer_trans (a b c : jsstring) :
  not_newer a b -> not_newer b c -> not_newer a c.
Proof.
  unfold not_newer, str_ltb. intros Hab Hbc.
  destruct (str_compare a b) eqn:E1; try discriminate.
  - apply str_compare_eq in E1. now subst.
  - destruct (str_compare b c) eqn:E2; try discriminate.
    + apply str_compare_eq in E2. subst. now rewrite E1.
    + now rewrite (str_compare_trans _ _ _ _ E1 E2).
Qed.

Lemma not_newer_antisym (a b : jsstring) :
  not_newer a b -> not_newer b a -> a = b.
Proof.
  unfold not_newer, str_ltb. rewrite (str_compare_antisym a b).
  intros Hab Hba. apply str_compare_eq.
  destruct (str_compare a b); [reflexivity | discriminate..].
Qed.

End Strings.

(** ** [trim] *)

Section Trim.

Lemma trimStart_head (s u : jsstring) (c : char16) :
  trimStart s = c :: u -> isWhiteSpace c = false.
Proof.
  induction s as [|d s IH]; simpl; [discriminate|].
  destruct (isWhiteSpace d) eqn:E; [exact IH|].
  intros H. injection H as -> _. exact E.
Qed.

Lemma trimStart_fixed (c : char16) (u : jsstring) :
  isWhiteSpace c = false -> trimStart (c :: u) = c :: u.
Proof. intros H. simpl. now rewrite H. Qed.

Lemma trimStart_idem (s : jsstring) : trimStart (trimStart s) = trimStart s.
Proof.
  destruct (trimStart s) as [|c u] eqn:E; [reflexivity|].
  apply trimStart_fixed. exact (trimStart_head _ _ _ E).
Qed.

Lemma trimStart_snoc (s : jsstring) (c : char16) :
  isWhiteSpace c = false -> trimStart (s ++ [c]) = trimStart s ++ [c].
Proof.
  intros H. induction s as [|d s IH]; simpl.
  - now rewrite H.
  - destruct (isWhiteSpace d); [exact IH | reflexivity].
Qed.

Lemma trimEnd_idem (s : jsstring) : trimEnd (trimEnd s) = trimEnd s.
Proof. unfold trimEnd. now rewrite rev_involutive, trimStart_idem. Qed.

(** Stripping the end leaves a stripped start alone. *)
Lemma trimStart_trimEnd (s : jsstring) :
  trimStart s = s -> trimStart (trimEnd s) = trimEnd s.
Proof.
  destruct s as [|c u]; [reflexivity|].
  intros H. assert (Hc : isWhiteSpace c = false) by exact (trimStart_head _ _ _ H).
  unfold trimEnd. simpl rev.
  rewrite (trimStart_snoc _ _ Hc), rev_app_distr. simpl.
  now rewrite Hc.
Qed.

Lemma trimStart_trim (s : jsstring) : trimStart (trim s) = trim s.
Proof. apply trimStart_trimEnd, trimStart_idem. Qed.

Lemma trim_idem (s : jsstring) : trim (trim s) = trim s.
Proof.
  unfold trim at 1. rewrite trimStart_trim.
  unfold trim. apply trimEnd_idem.
Qed.

Lemma trim_not_blank (s : jsstring) :
  trim s <> [] -> forallb isWhiteSpace (trim s) = false.
Proof.
  intros H. pose proof (trimStart_trim s) as E.
  destruct (trim s) as [|c u]; [congruence|].
  simpl. now rewrite (trimStart_head _ _ _ E).
Qed.

Lemma truthy_str (s : jsstring) : truthy (Val (JStr s)) = true <-> s <> [].
Proof. destruct s; simpl; split; congruence. Qed.

End Trim.

(** ** More on [trim] *)

Section TrimShape.

Lemma trimStart_nil_iff (s : jsstring) : trimStart s = [] <-> blank s = true.
Proof.
  unfold blank. induction s as [|c s IH]; simpl; [tauto|].
  destruct (isWhiteSpace c); simpl; [exact IH | split; discriminate].
Qed.

Lemma blank_rev (s : jsstring) : blank (rev s) = blank s.
Proof.
  unfold blank. induction s as [|c s IH]; simpl; [reflexivity|].
  rewrite forallb_app, IH. simpl. rewrite andb_true_r. apply andb_comm.
Qed.

Lemma blank_app (a b : jsstring) : blank (a ++ b) = blank a && blank b.
Proof. apply forallb_app. Qed.

Lemma trimStart_split (s : jsstring) :
  exists l, s = l ++ trimStart s /\ blank l = true.
Proof.
  induction s as [|c s [l [Hs Hl]]]; [now exists []|].
  simpl. destruct (isWhiteSpace c) eqn:E.
  - exists (c :: l). split; [simpl; now f_equal|].
    unfold blank in *. simpl. now rewrite E.
  - now exists [].
Qed.

Lemma trimEnd_split (s : jsstring) :
  exists r, s = trimEnd s ++ r /\ blank r = true.
Proof.
  unfold trimEnd. destruct (trimStart_split (rev s)) as [l [Hs Hl]].
  exists (rev l). split; [|now rewrite blank_rev].
  rewrite <- rev_app_distr, <- Hs. symmetry. apply rev_involutive.
Qed.

Lemma trim_split (s : jsstring) :
  exists l r, s = l ++ trim s ++ r /\ blank l = true /\ blank r = true.
Proof.
  destruct (trimStart_split s) as [l [Hs Hl]].
  destruct (trimEnd_split (trimStart s)) as [r [Ht Hr]].
  exists l, r. unfold trim. now rewrite <- Ht.
Qed.

Lemma trim_nil_iff (s : jsstring) : trim s = [] <-> blank s = true.
Proof.
  split.
  - intros H. destruct (trim_split s) as [l [r [Hs [Hl Hr]]]].
    rewrite Hs, H. simpl. now rewrite blank_app, Hl, Hr.
  - intros H. apply trimStart_nil_iff in H. unfold trim. now rewrite H.
Qed.

Lemma trim_last (s u : jsstring) (c : char16) :
  trim s = u ++ [c] -> isWhiteSpace c = false.
Proof.
  unfold trim, trimEnd. intros H.
  apply (f_equal (@rev _)) in H. rewrite rev_involutive, rev_app_distr in H.
  simpl in H. exact (trimStart_head _ _ _ H).
Qed.

End TrimShape.

(** ** Text as the column gives it back *)

Section WellFormed.

Lemma wellFormedFrom_pointwise (p : bool) (s : jsstring) :
  Forall2 read_back s (wellFormedFrom p s).
Proof.
  revert p. induction s as [|c s IH]; intros p; simpl; constructor; [|apply IH].
  unfold read_back.
  destruct (isHighSurrogate c);
    [destruct s as [|d s]; [|destruct (isLowSurrogate d)] |
     destruct (isLowSurrogate c); [destruct p|]]; auto.
Qed.

(** A surrogate pair is kept, lone surrogates on either side of it are not. *)
Example toWellFormed_pairs :
  toWellFormed [56832; 55357; 56832; 55357; 97]%N
  = [65533; 55357; 56832; 65533; 97]%N.
Proof. reflexivity. Qed.

Lemma toWellFormed_pointwise (s : jsstring) :
  Forall2 read_back s (toWellFormed s).
Proof. apply wellFormedFrom_pointwise. Qed.

Lemma read_back_not_white (c d : char16) :
  read_back c d -> isWhiteSpace c = false -> isWhiteSpace d = false.
Proof. intros [-> | ->] H; [exact H | reflexivity]. Qed.

Lemma toWellFormed_nil (s : jsstring) : toWellFormed s = [] -> s = [].
Proof.
  intros H. pose proof (toWellFormed_pointwise s) as F. rewrite H in F.
  now inversion F.
Qed.

Lemma toWellFormed_first (s u : jsstring) (d : char16) :
  toWellFormed s = d :: u -> exists c s', s = c :: s' /\ read_back c d.
Proof.
  intros H. pose proof (toWellFormed_pointwise s) as F. rewrite H in F.
  inversion F; subst. eauto.
Qed.

Lemma toWellFormed_last (s u : jsstring) (d : char16) :
  toWellFormed s = u ++ [d] -> exists s' c, s = s' ++ [c] /\ read_back c d.
Proof.
  intros H. pose proof (toWellFormed_pointwise s) as F. rewrite H in F.
  apply Forall2_app_inv_r in F as [s1 [s2 [F1 [F2 ->]]]].
  inversion F2 as [|c ? s3 ? Hc F3]; subst. inversion F3; subst. eauto.
Qed.

(** A string without surrogates comes back as it is. *)
Lemma wellFormedFrom_no_surrogate (p : bool) (s : jsstring) :
  Forall (fun c => isSurrogate c = false) s -> wellFormedFrom p s = s.
Proof.
  intros H. revert p. induction H as [|c s Hc Hs IH]; intros p; [reflexivity|].
  simpl. unfold isSurrogate in Hc. apply orb_false_iff in Hc as [Hh Hl].
  now rewrite Hh, Hl, IH.
Qed.

Lemma toWellFormed_no_surrogate (s : jsstring) :
  Forall (fun c => isSurrogate c = false) s -> toWellFormed s = s.
Proof. apply wellFormedFrom_no_surrogate. Qed.

Lemma trim_no_surrogate (s : jsstring) :
  Forall (fun c => isSurrogate c = false) s ->
  Forall (fun c => isSurrogate c = false) (trim s).
Proof.
  intros H. destruct (trim_split s) as [l [r [Hs _]]].
  rewrite Hs in H. apply Forall_app in H as [_ H].
  now apply Forall_app in H as [H _].
Qed.

(** What the column gives back for a trimmed text is trimmed and, if the
    text is not empty, not empty. *)
Lemma stored_first (s u : jsstring) (d : char16) :
  toWellFormed (trim s) = d :: u -> isWhiteSpace d = false.
Proof.
  intros H. apply toWellFormed_first in H as [c [s' [Hs Hc]]].
  apply (read_back_not_white c d Hc).
  rewrite <- trimStart_trim in Hs. exact (trimStart_head _ _ _ Hs).
Qed.

Lemma stored_last (s u : jsstring) (d : char16) :
  toWellFormed (trim s) = u ++ [d] -> isWhiteSpace d = false.
Proof.
  intros H. apply toWellFormed_last in H as [s' [c [Hs Hc]]].
  apply (read_back_not_white c d Hc). exact (trim_last _ _ _ Hs).
Qed.

Lemma stored_not_empty (s : jsstring) :
  trim s <> [] -> toWellFormed (trim s) <> [].
Proof. intros H E. now apply toWellFormed_nil in E. Qed.

Lemma stored_not_blank (s : jsstring) :
  trim s <> [] -> blank (toWellFormed (trim s)) = false.
Proof.
  intros H. apply stored_not_empty in H.
  destruct (toWellFormed (trim s)) as [|d u] eqn:E; [congruence|].
  unfold blank. simpl. now rewrite (stored_first _ _ _ E).
Qed.

Lemma trim_fixed (t : jsstring) :
  (forall c u, t = c :: u -> isWhiteSpace c = false) ->
  (forall u c, t = u ++ [c] -> isWhiteSpace c = false) ->
  trim t = t.
Proof.
  intros Hf Hl. unfold trim.
  assert (E : trimStart t = t).
  { destruct t as [|c u]; [reflexivity|]. apply trimStart_fixed. now apply (Hf c u). }
  rewrite E. unfold trimEnd.
  destruct (rev t) as [|c u] eqn:Er.
  - apply (f_equal (@rev _)) in Er. now rewrite rev_involutive in Er.
  - rewrite trimStart_fixed, <- Er; [apply rev_involutive|].
    apply (Hl (rev u) c). apply (f_equal (@rev _)) in Er.
    now rewrite rev_involutive in Er.
Qed.

Lemma stored_trimmed (s : jsstring) :
  trim (toWellFormed (trim s)) = toWellFormed (trim s).
Proof.
  apply trim_fixed; intros; [eapply stored_first | eapply stored_last]; eassumption.
Qed.

End WellFormed.

(** ** The table *)

Section Table.

Lemma has_id_true (i : jsstring) (r : Todo) : has_id i r = true <-> id r = i.
Proof. apply str_eqb_eq. Qed.

Lemma has_id_false (i : jsstring) (r : Todo) : has_id i r = false <-> id r <> i.
Proof. apply str_eqb_neq. Qed.

Lemma select_by_id_Some (i : jsstring) (db : Db) (r : Todo) :
  select_by_id i db = Some r -> In r db /\ id r = i.
Proof.
  intros H. apply find_some in H. now rewrite has_id_true in H.
Qed.

Lemma select_by_id_None (i : jsstring) (db : Db) :
  select_by_id i db = None <-> (forall r, In r db -> id r <> i).
Proof.
  split.
  - intros H r Hr. apply has_id_false. exact (find_none _ _ H r Hr).
  - intros H. induction db as [|y db IH]; [reflexivity|].
    unfold select_by_id. simpl.
    rewrite (proj2 (has_id_false i y) (H y (or_introl eq_refl))).
    apply IH. intros r Hr. apply H. now right.
Qed.

Lemma existsb_has_id (i : jsstring) (db : Db) :
  existsb (has_id i) db = false <-> select_by_id i db = None.
Proof.
  unfold select_by_id. induction db as [|y db IH]; simpl; [tauto|].
  destruct (has_id i y); simpl; [split; discriminate | exact IH].
Qed.

Lemma insert_fresh (i t c : jsstring) (db : Db) :
  select_by_id i db = None ->
  insert i t c db = Some (db ++ [mkTodo i (toWellFormed t) 0 c]).
Proof.
  intros H. unfold insert. now rewrite (proj2 (existsb_has_id i db) H).
Qed.

Lemma insert_taken (i t c : jsstring) (db : Db) (r : Todo) :
  select_by_id i db = Some r -> insert i t c db = None.
Proof.
  intros H. unfold insert.
  destruct (existsb (has_id i) db) eqn:E; [reflexivity|].
  apply existsb_has_id in E. congruence.
Qed.

Lemma select_by_id_app_fresh (i : jsstring) (db : Db) (r : Todo) :
  select_by_id i db = None -> id r = i -> select_by_id i (db ++ [r]) = Some r.
Proof.
  intros H Hr. unfold select_by_id in *.
  induction db as [|y db IH]; simpl in *.
  - now rewrite (proj2 (has_id_true i r) Hr).
  - destruct (has_id i y); [discriminate | now apply IH].
Qed.

Lemma delete_by_id_In (i : jsstring) (db : Db) (r : Todo) :
  In r (delete_by_id i db) <-> In r db /\ id r <> i.
Proof.
  unfold delete_by_id. rewrite filter_In, negb_true_iff, has_id_false. tauto.
Qed.

Lemma select_delete_same (i : jsstring) (db : Db) :
  select_by_id i (delete_by_id i db) = None.
Proof.
  apply select_by_id_None. intros r Hr. now apply delete_by_id_In in Hr.
Qed.


Lemma delete_absent (i : jsstring) (db : Db) :
  select_by_id i db = None -> delete_by_id i db = db.
Proof.
  intros H. unfold delete_by_id.
  induction db as [|y db IH]; simpl; [reflexivity|].
  unfold select_by_id in H. simpl in H.
  destruct (has_id i y); [discriminate|]. simpl. f_equal. now apply IH.
Qed.

Lemma delete_one (i : jsstring) (db : Db) (r : Todo) :
  NoDup (map id db) -> select_by_id i db = Some r ->
  List.length db = S (List.length (delete_by_id i db)).
Proof.
  unfold select_by_id. induction db as [|y db IH]; simpl; [discriminate|].
  intros Hnd H. inversion Hnd as [|? ? Hy Hnd']; subst.
  destruct (has_id i y) eqn:Ei; simpl.
  - apply has_id_true in Ei. f_equal.
    rewrite delete_absent; [reflexivity|].
    apply select_by_id_None. intros x Hx Hxi.
    apply Hy. rewrite Ei, <- Hxi. now apply in_map.
  - simpl. f_equal. now apply IH.
Qed.

Lemma update_completed_length (v : Z) (i : jsstring) (db : Db) :
  List.length (update_completed v i db) = List.length db.
Proof. apply length_map. Qed.

Lemma update_completed_ids (v : Z) (i : jsstring) (db : Db) :
  map id (update_completed v i db) = map id db.
Proof.
  unfold update_completed. rewrite map_map. apply map_ext.
  intros r. now destruct (has_id i r).
Qed.

Lemma select_update_same (v : Z) (i : jsstring) (db : Db) (r : Todo) :
  select_by_id i db = Some r ->
  select_by_id i (update_completed v i db)
  = Some (mkTodo (id r) (text r) v (createdAt r)).
Proof.
  unfold select_by_id, update_completed.
  induction db as [|y db IH]; simpl; [discriminate|].
  destruct (has_id i y) eqn:Ei.
  - intros H. injection H as ->. unfold has_id in *. simpl. now rewrite Ei.
  - rewrite Ei. exact IH.
Qed.

Lemma update_completed_nth (v : Z) (i : jsstring) (db : Db) (n : nat) :
  nth_error (update_completed v i db) n
  = option_map (fun r => if has_id i r
                         then mkTodo (id r) (text r) v (createdAt r)
                         else r) (nth_error db n).
Proof. apply nth_error_map. Qed.

Lemma select_by_id_unique (db : Db) (r : Todo) :
  NoDup (map id db) -> In r db -> select_by_id (id r) db = Some r.
Proof.
  unfold select_by_id. induction db as [|y db IH]; simpl; [tauto|].
  intros Hnd Hr. apply NoDup_cons_iff in Hnd as [Hy Hnd].
  destruct Hr as [->|Hr].
  - now rewrite (proj2 (has_id_true (id r) r) eq_refl).
  - rewrite (proj2 (has_id_false (id r) y)); [now apply IH|].
    intros E. apply Hy. rewrite E. now apply in_map.
Qed.

End Table.

(** ** [ORDER BY createdAt DESC] *)

Section Ordering.

Lemma insert_desc_perm (r : Todo) (l : list Todo) :
  Permutation (r :: l) (insert_desc r l).
Proof.
  induction l as [|y l IH]; simpl; [reflexivity|].
  destruct (str_ltb (createdAt r) (createdAt y)); [|reflexivity].
  rewrite perm_swap. now apply perm_skip.
Qed.

Lemma select_all_desc_perm (db : Db) : Permutation db (select_all_desc db).
Proof.
  induction db as [|r db IH]; simpl; [reflexivity|].
  rewrite <- insert_desc_perm. now apply perm_skip.
Qed.

Lemma insert_desc_sorted (r : Todo) (l : list Todo) :
  StronglySorted may_follow l -> StronglySorted may_follow (insert_desc r l).
Proof.
  induction 1 as [|y l Hl IH Hy]; simpl.
  - repeat constructor.
  - destruct (str_ltb (createdAt r) (createdAt y)) eqn:E.
    + constructor; [exact IH|].
      rewrite <- insert_desc_perm. constructor; [|exact Hy].
      now apply str_ltb_asym.
    + constructor; [now constructor|].
      constructor; [exact E|].
      eapply Forall_impl; [|exact Hy].
      intros z Hz. exact (not_newer_trans _ _ _ E Hz).
Qed.

Lemma select_all_desc_sorted (db : Db) :
  StronglySorted may_follow (select_all_desc db).
Proof.
  induction db as [|r db IH]; simpl; [constructor | now apply insert_desc_sorted].
Qed.

Lemma select_all_desc_three (A B C : Todo) :
  str_ltb (createdAt A) (createdAt B) = true ->
  str_ltb (createdAt B) (createdAt C) = true ->
  select_all_desc [A; B; C] = [C; B; A].
Proof.
  intros HAB HBC. pose proof (str_ltb_trans _ _ _ HAB HBC) as HAC.
  unfold select_all_desc. simpl. rewrite HBC. simpl. rewrite HAC. simpl.
  now rewrite HAB.
Qed.

(** With no two rows of one createdAt, [ORDER BY createdAt DESC] leaves no
    choice: two sorted listings of the same rows are the same list. *)
Lemma sorted_listing_unique (l1 l2 : list Todo) :
  (forall x y, In x l1 -> In y l1 -> createdAt x = createdAt y -> x = y) ->
  Permutation l1 l2 ->
  StronglySorted may_follow l1 -> StronglySorted may_follow l2 ->
  l1 = l2.
Proof.
  revert l2. induction l1 as [|a l1 IH]; intros l2 Hinj Hperm S1 S2.
  - now apply Permutation_nil in Hperm.
  - destruct l2 as [|b l2];
      [now apply Permutation_sym, Permutation_nil in Hperm|].
    apply StronglySorted_inv in S1 as [S1 F1].
    apply StronglySorted_inv in S2 as [S2 F2].
    rewrite Forall_forall in F1, F2.
    assert (Hb : In b (a :: l1))
      by (apply (Permutation_in _ (Permutation_sym Hperm)); now left).
    assert (Ha : In a (b :: l2))
      by (apply (Permutation_in _ Hperm); now left).
    assert (Hab : a = b).
    { destruct Hb as [Hb|Hb]; [exact Hb|].
      destruct Ha as [Ha|Ha]; [now symmetry|].
      apply Hinj; [now left | now right|].
      apply not_newer_antisym; [now apply F1 | now apply F2]. }
    subst b. f_equal. apply IH; auto.
    + intros x y Hx Hy. apply Hinj; now right.
    + now apply Permutation_cons_inv in Hperm.
Qed.

End Ordering.

(** ** Running the handlers *)

Section Handlers.

Lemma prop_str_not_null (k : jsstring) (j : json) (v : json) :
  prop k j = Val v -> j <> JNull.
Proof. intros H ->. discriminate. Qed.

Lemma destructure_ok (k : jsstring) (j : json) (db : Db) :
  j <> JNull -> destructure k j db = (db, Return (prop k j)).
Proof. destruct j; intros H; [congruence | reflexivity..]. Qed.

Lemma destructure_cases (k : jsstring) (j : json) (db : Db) :
  destructure k j db = (db, Throw TypeError)
  \/ destructure k j db = (db, Return (prop k j)).
Proof. destruct j; [now left | now right..]. Qed.

Lemma serve_POST_created (db : Db) (j : json) (s : jsstring) (env : Env) :
  prop (lit "text") j = Val (JStr s) ->
  trim s <> [] ->
  select_by_id (randomUUID env) db = None ->
  serve db (POST_todos (Parsed j) env)
  = (db ++ [mkTodo (randomUUID env) (toWellFormed (trim s)) 0 (toISOString env)],
     mkResponse 201
       (Json (todo_json (mkTodo (randomUUID env) (toWellFormed (trim s)) 0 (toISOString env))))
       corsHeaders).
Proof.
  intros Hp Ht Hf. unfold serve, routes, todos_POST, bind. simpl req_json.
  unfold ret at 1. rewrite (destructure_ok _ _ _ (prop_str_not_null _ _ _ Hp)), Hp.
  assert (Hs : s <> []) by (intros ->; now apply Ht).
  rewrite (proj2 (truthy_str s) Hs). unfold str_of.
  rewrite (proj2 (truthy_str (trim s)) Ht). simpl.
  unfold run_insert. rewrite (insert_fresh _ _ _ _ Hf).
  unfold query_get.
  now rewrite (select_by_id_app_fresh _ _
                 (mkTodo (randomUUID env) (toWellFormed (trim s)) 0 (toISOString env))
                 Hf eq_refl).
Qed.

(** A POST leaves the table alone, or appends one row that holds a trimmed,
    non-empty text and the flag 0 and answers with that row. *)
Lemma serve_POST_cases (db : Db) (b : Body) (env : Env)
      (P : Db * Response -> Prop) :
  (forall resp, body resp = Text "Invalid todo text"
                \/ body resp = Text "Internal Server Error" ->
                P (db, resp)) ->
  (forall s, trim s <> [] ->
             select_by_id (randomUUID env) db = None ->
             let r := mkTodo (randomUUID env) (toWellFormed (trim s)) 0 (toISOString env) in
             P (db ++ [r], mkResponse 201 (Json (todo_json r)) corsHeaders)) ->
  P (serve db (POST_todos b env)).
Proof.
  intros Hsame Hnew. unfold serve, routes, todos_POST, bind.
  destruct b as [|j]; simpl req_json; [apply Hsame; now right|].
  unfold ret at 1.
  destruct (destructure_cases (lit "text") j db) as [-> | ->];
    [apply Hsame; now right|].
  destruct (prop (lit "text") j) as [|[|b1|q1|s|l1|m1]];
    try (simpl; rewrite ?orb_true_r; apply Hsame; now left).
  unfold str_of.
  destruct (truthy (Val (JStr s))) eqn:Hs; [|apply Hsame; now left].
  destruct (truthy (Val (JStr (trim s)))) eqn:Ht; [|apply Hsame; now left].
  simpl. unfold run_insert, insert.
  destruct (existsb (has_id (randomUUID env)) db) eqn:E;
    [apply Hsame; now right|].
  apply existsb_has_id in E. unfold query_get.
  rewrite (select_by_id_app_fresh _ _
             (mkTodo (randomUUID env) (toWellFormed (trim s)) 0 (toISOString env))
             E eq_refl).
  apply Hnew; [now apply truthy_str | exact E].
Qed.

Lemma serve_GET_todos (db : Db) :
  serve db GET_todos
  = (db, mkResponse 200 (Json (JArr (map todo_json (select_all_desc db))))
                    corsHeaders).
Proof. reflexivity. Qed.

Lemma serve_GET_todo (db : Db) (i : jsstring) :
  serve db (GET_todo i)
  = (db, match select_by_id i db with
         | None => mkResponse 404 (Text "Todo not found") corsHeaders
         | Some r => mkResponse 200 (Json (todo_json r)) corsHeaders
         end).
Proof.
  unfold serve, routes, todo_GET, bind, query_get.
  now destruct (select_by_id i db).
Qed.

Lemma serve_DELETE_todo (db : Db) (i : jsstring) :
  serve db (DELETE_todo i)
  = match select_by_id i db with
    | None => (db, mkResponse 404 (Text "Todo not found") corsHeaders)
    | Some _ => (delete_by_id i db, mkResponse 204 NoBody corsHeaders)
    end.
Proof.
  unfold serve, routes, todo_DELETE, bind, query_get.
  now destruct (select_by_id i db).
Qed.

Lemma serve_PATCH_invalid (db : Db) (i : jsstring) (j : json) :
  j <> JNull ->
  typeof (prop (lit "completed") j) <> TBoolean ->
  serve db (PATCH_todo i (Parsed j))
  = (db, mkResponse 400 (Text "Invalid request") corsHeaders).
Proof.
  intros Hj Ht. unfold serve, routes, todo_PATCH, bind. simpl req_json.
  unfold ret at 1. rewrite (destructure_ok _ _ _ Hj).
  destruct (typeof (prop (lit "completed") j)); try reflexivity. congruence.
Qed.

Lemma serve_PATCH_bool (db : Db) (i : jsstring) (j : json) (c : bool) :
  prop (lit "completed") j = Val (JBool c) ->
  serve db (PATCH_todo i (Parsed j))
  = match select_by_id i db with
    | None => (db, mkResponse 404 (Text "Todo not found") corsHeaders)
    | Some r =>
        (update_completed (if c then 1 else 0)%Z i db,
         mkResponse 200
           (Json (todo_json (mkTodo (id r) (text r) (if c then 1 else 0)%Z
                                    (createdAt r))))
           corsHeaders)
    end.
Proof.
  intros Hp. unfold serve, routes, todo_PATCH, bind. simpl req_json.
  unfold ret at 1. rewrite (destructure_ok _ _ _ (prop_str_not_null _ _ _ Hp)), Hp.
  simpl.
  destruct (select_by_id i db) as [r|] eqn:E; [|reflexivity].
  unfold ret. now rewrite (select_update_same _ _ _ _ E).
Qed.

(** A PATCH leaves the table alone, or sets the flag of an existing row to
    0 or 1 and answers with the rewritten row. *)
Lemma serve_PATCH_cases (db : Db) (i : jsstring) (b : Body)
      (P : Db * Response -> Prop) :
  (forall resp, (exists s, body resp = Text s) -> P (db, resp)) ->
  (forall (c : bool) r,
      select_by_id i db = Some r ->
      let v := (if c then 1 else 0)%Z in
      P (update_completed v i db,
         mkResponse 200
           (Json (todo_json (mkTodo (id r) (text r) v (createdAt r))))
           corsHeaders)) ->
  P (serve db (PATCH_todo i b)).
Proof.
  intros Hsame Hnew. unfold serve, routes, todo_PATCH, bind.
  destruct b as [|j]; simpl req_json; [apply Hsame; now eexists|].
  unfold ret at 1.
  destruct (destructure_cases (lit "completed") j db) as [-> | ->];
    [apply Hsame; now eexists|].
  destruct (prop (lit "completed") j) as [|[|c|q1|s1|l1|m1]];
    try (simpl; apply Hsame; now eexists).
  simpl.
  destruct (select_by_id i db) as [r|] eqn:E; [|apply Hsame; now eexists].
  unfold ret. rewrite (select_update_same _ _ _ _ E).
  now apply Hnew.
Qed.

Lemma prop_completed_todo_json (r : Todo) :
  prop (lit "completed") (todo_json r) = Val (JNum (inject_Z (completed r))).
Proof. reflexivity. Qed.

End Handlers.

(** ** Invariants of the reachable tables *)

Section Invariants.

Lemma serve_table_step (db : Db) (req : Request) :
  table_step db (fst (serve db req)).
Proof.
  destruct req as [|b env|i|i b|i].
  - rewrite serve_GET_todos. constructor.
  - apply serve_POST_cases; simpl; intros; now constructor.
  - rewrite serve_GET_todo. constructor.
  - apply serve_PATCH_cases; simpl; intros; constructor.
  - rewrite serve_DELETE_todo.
    destruct (select_by_id i db); simpl; constructor.
Qed.

(** A property of rows that fresh rows have and a new flag keeps holds of
    every row of every reachable table. *)
Lemma reachable_rows (P : Todo -> Prop) :
  (forall i s c, trim s <> [] -> P (mkTodo i (toWellFormed (trim s)) 0 c)) ->
  (forall r (b : bool), P r ->
      P (mkTodo (id r) (text r) (if b then 1 else 0)%Z (createdAt r))) ->
  forall db, reachable db -> Forall P db.
Proof.
  intros Hnew Hupd db Hdb.
  induction Hdb as [|db req Hdb IH]; [constructor|].
  destruct (serve_table_step db req) as [|i s c Hs Hf|b i|i].
  - exact IH.
  - apply Forall_app. split; [exact IH|]. constructor; [now apply Hnew | constructor].
  - unfold update_completed. rewrite Forall_map.
    eapply Forall_impl; [|exact IH].
    intros r Hr. destruct (has_id i r); [now apply Hupd | exact Hr].
  - unfold delete_by_id. rewrite Forall_forall in *.
    intros r Hr. apply filter_In in Hr. now apply IH.
Qed.

(** Deleting rows keeps the ids of the remaining rows distinct. *)
Lemma delete_by_id_ids_unique (i : jsstring) (db : Db) :
  NoDup (map id db) -> NoDup (map id (delete_by_id i db)).
Proof.
  unfold delete_by_id. induction db as [|r db IH]; intros Hnd; [exact Hnd|].
  apply NoDup_cons_iff in Hnd as [Hr Hdb]. cbn [filter map] in *.
  destruct (has_id i r); cbn [negb map]; [now apply IH|].
  apply NoDup_cons; [|now apply IH].
  contradict Hr. apply in_map_iff in Hr as [x [Ex Hx]].
  rewrite <- Ex. apply in_map. now apply filter_In in Hx.
Qed.

Lemma reachable_ids_unique (db : Db) : reachable db -> NoDup (map id db).
Proof.
  intros Hdb. induction Hdb as [|db req Hdb IH]; [constructor|].
  destruct (serve_table_step db req) as [|i s c Hs Hf|b i|i].
  - exact IH.
  - rewrite map_app. simpl.
    apply NoDup_app; [exact IH | repeat constructor; intros [] |].
    intros x Hx [<-|[]].
    apply in_map_iff in Hx as [r [Hr Hin]].
    exact (proj1 (select_by_id_None _ _) Hf r Hin Hr).
  - now rewrite update_completed_ids.
  - now apply delete_by_id_ids_unique.
Qed.

End Invariants.

(** ** The API contract *)

(** C1 (as the code has it).  A POST whose body has a string [text] that is
    not empty after trimming, and for which [crypto.randomUUID()] returns an
    id not yet in the table, is answered 201; the body is the stored row with
    the generated id and createdAt, the trimmed text as the TEXT column gives
    it back (the trimmed text itself when it has no surrogate code unit, and
    with U+FFFD for every unpaired one otherwise), and [completed] as the
    integer 0. *)
Theorem post_created (db : Db) (j : json) (s : jsstring) (env : Env) :
  prop (lit "text") j = Val (JStr s) ->
  trim s <> [] ->
  select_by_id (randomUUID env) db = None ->
  let r := mkTodo (randomUUID env) (toWellFormed (trim s)) 0 (toISOString env) in
  let out := serve db (POST_todos (Parsed j) env) in
  status (snd out) = 201
  /\ body (snd out) = Json (todo_json r)
  /\ select_by_id (randomUUID env) (fst out) = Some r
  /\ prop (lit "id") (todo_json r) = Val (JStr (randomUUID env))
  /\ prop (lit "createdAt") (todo_json r) = Val (JStr (toISOString env))
  /\ prop (lit "text") (todo_json r) = Val (JStr (toWellFormed (trim s)))
  /\ (Forall (fun c => isSurrogate c = false) s ->
      prop (lit "text") (todo_json r) = Val (JStr (trim s)))
  /\ prop (lit "completed") (todo_json r) = Val (JNum (inject_Z 0)).
Proof.
  intros Hp Ht Hf r out. subst out.
  rewrite (serve_POST_created _ _ _ _ Hp Ht Hf). fold r.
  split; [reflexivity|]. split; [reflexivity|].
  split; [now apply select_by_id_app_fresh|].
  do 3 (split; [reflexivity|]). split; [|reflexivity].
  intros Hs. change (prop (lit "text") (todo_json r)) with (Val (JStr (text r))).
  unfold r. cbn [text].
  now rewrite (toWellFormed_no_surrogate _ (trim_no_surrogate _ Hs)).
Qed.

Lemma post_created_witness :
  status (snd (serve [] (POST_todos (text_body "Buy milk") env1))) = 201
  /\ body (snd (serve [] (POST_todos (text_body "Buy milk") env1)))
     = Json (todo_json (mkTodo (randomUUID env1) (toWellFormed (trim (lit "Buy milk"))) 0
                               (toISOString env1))).
Proof.
  assert (Ht : trim (lit "Buy milk") <> []) by (vm_compute; discriminate).
  pose proof (post_created [] (JObj [(lit "text", JStr (lit "Buy milk"))])
                (lit "Buy milk") env1 eq_refl Ht eq_refl) as H.
  split; apply H.
Defined.

(** C1, as stated, fails: the 201 body of [POST {text: "Buy milk"}] carries
    [completed] as the number 0, not as the JSON boolean [false]. *)
Lemma post_completed_not_false :
  let resp := snd (serve [] (POST_todos (text_body "Buy milk") env1)) in
  status resp = 201
  /\ (exists o, body resp = Json o
                /\ prop (lit "completed") o = Val (JNum (inject_Z 0)))
  /\ ~ (exists o, body resp = Json o
                  /\ prop (lit "completed") o = Val (JBool false)).
Proof.
  split; [reflexivity|]. split.
  - eexists. split; reflexivity.
  - intros [o [Hb Hc]]. vm_compute in Hb. injection Hb as <-.
    vm_compute in Hc. discriminate.
Qed.

(** C2 (as the code has it).  A PATCH whose body is a JSON value other than
    [null] and whose [completed] is not a boolean (a number, a string, [null],
    or no such field) is answered 400 and leaves the table as it is, for every
    id, stored or not: the type check comes before the lookup.  A body that
    is the literal [null] cannot be destructured: it is answered 500, the
    table left as it is. *)
Theorem patch_type_check_first :
  (forall (db : Db) (i : jsstring) (j : json),
      j <> JNull ->
      (forall c, prop (lit "completed") j <> Val (JBool c)) ->
      serve db (PATCH_todo i (Parsed j))
      = (db, mkResponse 400 (Text "Invalid request") corsHeaders))
  /\ (forall (db : Db) (i : jsstring),
         serve db (PATCH_todo i (Parsed JNull))
         = (db, mkResponse 500 (Text "Internal Server Error") [])).
Proof.
  split; [|reflexivity].
  intros db i j Hj Hc. apply serve_PATCH_invalid; [exact Hj|].
  destruct (prop (lit "completed") j) as [|[|c|q|s|l|m]]; simpl; try discriminate.
  now destruct (Hc c).
Qed.

Lemma patch_type_check_first_witness :
  serve [] (PATCH_todo (lit "no-such-id") (completed_body (JStr (lit "true"))))
  = ([], mkResponse 400 (Text "Invalid request") corsHeaders)
  /\ serve db1 (PATCH_todo (randomUUID env1) (completed_body (JStr (lit "true"))))
     = (db1, mkResponse 400 (Text "Invalid request") corsHeaders).
Proof.
  split; apply (proj1 patch_type_check_first);
    solve [discriminate | intros c; discriminate].
Defined.

(** C2, as stated, fails: the body [null] has no boolean [completed], yet the
    PATCH is answered 500, not 400, on a stored id as on any other. *)
Lemma patch_null_body_not_400 :
  (forall c, prop (lit "completed") JNull <> Val (JBool c))
  /\ status (snd (serve db1 (PATCH_todo (randomUUID env1) (Parsed JNull)))) = 500
  /\ status (snd (serve db1 (PATCH_todo (randomUUID env1) (Parsed JNull)))) <> 400
  /\ status (snd (serve [] (PATCH_todo (lit "no-such-id") (Parsed JNull)))) <> 400.
Proof.
  split; [discriminate|]. split; [reflexivity|]. split; discriminate.
Qed.

(** The other rejected shapes the specification names: 0, 1, ["false"], [null]
    and a missing field. *)
Example patch_rejects_named_values :
  Forall (fun b => serve db1 (PATCH_todo (randomUUID env1) b)
                   = (db1, mkResponse 400 (Text "Invalid request") corsHeaders))
         [ completed_body (JNum (inject_Z 0));
           completed_body (JNum (inject_Z 1));
           completed_body (JStr (lit "false"));
           completed_body JNull;
           Parsed (JObj []) ].
Proof. repeat constructor. Qed.

(** C3 (as the code has it).  A POST whose body does not parse throws in
    [req.json()]; no handler catches it, the [error] callback answers 500
    with ["Internal Server Error"], and the table is left as it is. *)
Theorem post_unparseable (db : Db) (env : Env) :
  serve db (POST_todos Unparseable env)
  = (db, mkResponse 500 (Text "Internal Server Error") []).
Proof. reflexivity. Qed.

(** C3, as stated, fails: the status of the answer is 500, not 400. *)
Lemma post_unparseable_not_400 :
  status (snd (serve [] (POST_todos Unparseable env1))) = 500
  /\ status (snd (serve [] (POST_todos Unparseable env1))) <> 400.
Proof. split; [reflexivity | discriminate]. Qed.

(** C4.  GET /api/todos answers 200 with all stored rows, newest first: the
    listing is a permutation of the table in which no row is followed by a
    newer one (rows of equal createdAt in either order); when no two rows
    share a createdAt that order is the only one; and three todos posted one
    after another at increasing timestamps into an empty table are listed
    last, second, first. *)
Theorem list_newest_first :
  (forall db : Db,
      serve db GET_todos
      = (db, mkResponse 200 (Json (JArr (map todo_json (select_all_desc db))))
                        corsHeaders)
      /\ Permutation db (select_all_desc db)
      /\ StronglySorted may_follow (select_all_desc db))
  /\ (forall (db : Db) (l : list Todo),
         (forall x y, In x db -> In y db -> createdAt x = createdAt y -> x = y) ->
         Permutation db l -> StronglySorted may_follow l ->
         l = select_all_desc db)
  /\ (forall (jA jB jC : json) (sA sB sC : jsstring) (eA eB eC : Env),
         prop (lit "text") jA = Val (JStr sA) -> trim sA <> [] ->
         prop (lit "text") jB = Val (JStr sB) -> trim sB <> [] ->
         prop (lit "text") jC = Val (JStr sC) -> trim sC <> [] ->
         randomUUID eA <> randomUUID eB ->
         randomUUID eA <> randomUUID eC ->
         randomUUID eB <> randomUUID eC ->
         str_ltb (toISOString eA) (toISOString eB) = true ->
         str_ltb (toISOString eB) (toISOString eC) = true ->
         let dbA := fst (serve [] (POST_todos (Parsed jA) eA)) in
         let dbB := fst (serve dbA (POST_todos (Parsed jB) eB)) in
         let dbC := fst (serve dbB (POST_todos (Parsed jC) eC)) in
         let A := mkTodo (randomUUID eA) (toWellFormed (trim sA)) 0 (toISOString eA) in
         let B := mkTodo (randomUUID eB) (toWellFormed (trim sB)) 0 (toISOString eB) in
         let C := mkTodo (randomUUID eC) (toWellFormed (trim sC)) 0 (toISOString eC) in
         dbC = [A; B; C]
         /\ body (snd (serve dbC GET_todos))
            = Json (JArr [todo_json C; todo_json B; todo_json A])).
Proof.
  split; [|split].
  - intros db. split; [apply serve_GET_todos|].
    split; [apply select_all_desc_perm | apply select_all_desc_sorted].
  - intros db l Hinj Hperm Hsorted. apply sorted_listing_unique.
    + intros x y Hx Hy. apply Hinj; now apply (Permutation_in _ (Permutation_sym Hperm)).
    + rewrite <- Hperm. apply select_all_desc_perm.
    + exact Hsorted.
    + apply select_all_desc_sorted.
  - intros jA jB jC sA sB sC eA eB eC HA HsA HB HsB HC HsC Hab Hac Hbc Htab Htbc
           dbA dbB dbC A B C.
    assert (EA : dbA = [A]).
    { unfold dbA. now rewrite (serve_POST_created [] _ _ _ HA HsA eq_refl). }
    assert (EB : dbB = [A; B]).
    { unfold dbB. rewrite EA. rewrite (serve_POST_created _ _ _ _ HB HsB); [reflexivity|].
      apply select_by_id_None. intros r [<-|[]]. exact Hab. }
    assert (EC : dbC = [A; B; C]).
    { unfold dbC. rewrite EB. rewrite (serve_POST_created _ _ _ _ HC HsC); [reflexivity|].
      apply select_by_id_None. intros r [<-|[<-|[]]]; assumption. }
    split; [exact EC|].
    rewrite EC, serve_GET_todos. cbn [snd body].
    rewrite (select_all_desc_three A B C); [reflexivity | exact Htab | exact Htbc].
Qed.

Lemma list_newest_first_witness :
  let dbA := fst (serve [] (POST_todos (text_body "Buy groceries for dinner") env1)) in
  let dbB := fst (serve dbA (POST_todos (text_body "Schedule dentist appointment") env2)) in
  let dbC := fst (serve dbB (POST_todos (text_body "Review pull requests on GitHub") env3)) in
  body (snd (serve dbC GET_todos))
  = Json (JArr [ todo_json (mkTodo (randomUUID env3)
                                   (toWellFormed (trim (lit "Review pull requests on GitHub"))) 0
                                   (toISOString env3));
                 todo_json (mkTodo (randomUUID env2)
                                   (toWellFormed (trim (lit "Schedule dentist appointment"))) 0
                                   (toISOString env2));
                 todo_json (mkTodo (randomUUID env1)
                                   (toWellFormed (trim (lit "Buy groceries for dinner"))) 0
                                   (toISOString env1)) ]).
Proof.
  refine (proj2 (proj2 (proj2 list_newest_first)
                       (JObj [(lit "text", JStr (lit "Buy groceries for dinner"))])
                       (JObj [(lit "text", JStr (lit "Schedule dentist appointment"))])
                       (JObj [(lit "text", JStr (lit "Review pull requests on GitHub"))])
                       (lit "Buy groceries for dinner")
                       (lit "Schedule dentist appointment")
                       (lit "Review pull requests on GitHub")
                       env1 env2 env3
                       eq_refl _ eq_refl _ eq_refl _ _ _ _ eq_refl eq_refl));
    vm_compute; discriminate.
Defined.

(** C5.  A PATCH with a boolean [completed] on a stored id is answered 200
    with the rewritten row and changes nothing but the flag of that row: the
    table keeps its length, every row keeps its id, text and createdAt, the
    rows of that id get the flag 1 for [true] and 0 for [false], and every
    other row is the row it was. *)
Theorem patch_only_completed
        (db : Db) (i : jsstring) (j : json) (c : bool) (r : Todo) :
  prop (lit "completed") j = Val (JBool c) ->
  select_by_id i db = Some r ->
  let v := (if c then 1 else 0)%Z in
  let out := serve db (PATCH_todo i (Parsed j)) in
  snd out = mkResponse 200
              (Json (todo_json (mkTodo (id r) (text r) v (createdAt r))))
              corsHeaders
  /\ select_by_id i (fst out) = Some (mkTodo (id r) (text r) v (createdAt r))
  /\ List.length (fst out) = List.length db
  /\ forall n x, nth_error db n = Some x ->
       exists y, nth_error (fst out) n = Some y
                 /\ id y = id x /\ text y = text x /\ createdAt y = createdAt x
                 /\ (id x = i -> completed y = v)
                 /\ (id x <> i -> y = x).
Proof.
  intros Hp Hr v out. subst out.
  rewrite (serve_PATCH_bool _ _ _ _ Hp), Hr. fold v. simpl fst. simpl snd.
  split; [reflexivity|].
  split; [now apply select_update_same|].
  split; [apply update_completed_length|].
  intros n x Hx. rewrite update_completed_nth, Hx. simpl.
  destruct (has_id i x) eqn:E.
  - apply has_id_true in E. eexists. split; [reflexivity|]. simpl.
    repeat split; congruence.
  - apply has_id_false in E. exists x. split; [reflexivity|].
    repeat split; congruence.
Qed.

Lemma patch_only_completed_witness :
  snd (serve db1 (PATCH_todo (randomUUID env1) (completed_body (JBool true))))
  = mkResponse 200
      (Json (todo_json (mkTodo (randomUUID env1) (lit "Buy milk") 1
                               (toISOString env1))))
      corsHeaders.
Proof.
  exact (proj1 (patch_only_completed db1 (randomUUID env1)
                  (JObj [(lit "completed", JBool true)]) true
                  (mkTodo (randomUUID env1) (lit "Buy milk") 0 (toISOString env1))
                  eq_refl eq_refl)).
Defined.



(** C7.  GET /api/todos/:id is answered 404 with a plain-text body when no row
    has the id.  When a row has it the answer is 200 with a stored row of that
    id as JSON body, and with that very row when the ids of the table are
    distinct, as the primary key keeps them.  A 200 answer is never [null] or
    empty: its body is the JSON of a stored row of that id. *)
Theorem get_by_id :
  (forall (db : Db) (i : jsstring),
      (forall r, In r db -> id r <> i) ->
      serve db (GET_todo i)
      = (db, mkResponse 404 (Text "Todo not found") corsHeaders))
  /\ (forall (db : Db) (i : jsstring) (r : Todo),
         In r db -> id r = i ->
         exists r', In r' db /\ id r' = i
                    /\ serve db (GET_todo i)
                       = (db, mkResponse 200 (Json (todo_json r')) corsHeaders))
  /\ (forall (db : Db) (r : Todo),
         NoDup (map id db) -> In r db ->
         serve db (GET_todo (id r))
         = (db, mkResponse 200 (Json (todo_json r)) corsHeaders))
  /\ (forall (db : Db) (i : jsstring),
         status (snd (serve db (GET_todo i))) = 200 ->
         exists r, In r db /\ id r = i
                   /\ body (snd (serve db (GET_todo i))) = Json (todo_json r)).
Proof.
  split; [|split; [|split]].
  - intros db i H. apply select_by_id_None in H. now rewrite serve_GET_todo, H.
  - intros db i r Hr Hi. rewrite serve_GET_todo.
    destruct (select_by_id i db) as [r'|] eqn:E.
    + exists r'. destruct (select_by_id_Some _ _ _ E). auto.
    + now destruct (proj1 (select_by_id_None i db) E r Hr).
  - intros db r Hnd Hr. now rewrite serve_GET_todo, (select_by_id_unique db r Hnd Hr).
  - intros db i. rewrite serve_GET_todo.
    destruct (select_by_id i db) as [r|] eqn:E; simpl; [|discriminate].
    intros _. exists r. destruct (select_by_id_Some _ _ _ E). auto.
Qed.

Lemma get_by_id_witness :
  serve [] (GET_todo (lit "unknown"))
  = ([], mkResponse 404 (Text "Todo not found") corsHeaders)
  /\ serve db1 (GET_todo (id row1))
     = (db1, mkResponse 200 (Json (todo_json row1)) corsHeaders).
Proof.
  split.
  - apply (proj1 get_by_id). intros r [].
  - apply (proj1 (proj2 (proj2 get_by_id)) db1 row1).
    + repeat constructor. intros [].
    + now left.
Defined.

(** C8 (as the code has it).  An accepted POST stores [trim] of the text it
    was sent as the TEXT column holds it, never the raw value: the trimmed
    text itself when it has no surrogate code unit, and with U+FFFD for every
    unpaired one otherwise.  [trim] is idempotent, what is stored is trimmed,
    and ["  Buy milk  "] and ["Buy milk"] are both stored as ["Buy milk"]. *)
Theorem post_stores_trimmed :
  (forall (db : Db) (j : json) (s : jsstring) (env : Env),
      prop (lit "text") j = Val (JStr s) ->
      trim s <> [] ->
      select_by_id (randomUUID env) db = None ->
      let stored :=
        option_map text
          (select_by_id (randomUUID env)
                        (fst (serve db (POST_todos (Parsed j) env)))) in
      fst (serve db (POST_todos (Parsed j) env))
      = db ++ [mkTodo (randomUUID env) (toWellFormed (trim s)) 0 (toISOString env)]
      /\ stored = Some (toWellFormed (trim s))
      /\ (Forall (fun c => isSurrogate c = false) s -> stored = Some (trim s)))
  /\ (forall s : jsstring, trim (trim s) = trim s)
  /\ (forall s : jsstring,
         trim (toWellFormed (trim s)) = toWellFormed (trim s))
  /\ option_map text
       (select_by_id (randomUUID env1)
                     (fst (serve [] (POST_todos (text_body "  Buy milk  ") env1))))
     = Some (lit "Buy milk")
  /\ option_map text
       (select_by_id (randomUUID env1)
                     (fst (serve [] (POST_todos (text_body "Buy milk") env1))))
     = Some (lit "Buy milk").
Proof.
  split; [|split; [exact trim_idem | split; [exact stored_trimmed | split; reflexivity]]].
  intros db j s env Hp Ht Hf stored. subst stored.
  rewrite (serve_POST_created _ _ _ _ Hp Ht Hf). cbn [fst].
  rewrite (select_by_id_app_fresh _ _
             (mkTodo (randomUUID env) (toWellFormed (trim s)) 0 (toISOString env))
             Hf eq_refl).
  split; [reflexivity|]. split; [reflexivity|].
  intros Hs. cbn.
  now rewrite (toWellFormed_no_surrogate _ (trim_no_surrogate _ Hs)).
Qed.

Lemma post_stores_trimmed_witness :
  fst (serve db1 (POST_todos (text_body "  Walk the dog ") env2))
  = db1 ++ [mkTodo (randomUUID env2) (toWellFormed (trim (lit "  Walk the dog "))) 0
                   (toISOString env2)].
Proof.
  assert (Ht : trim (lit "  Walk the dog ") <> []) by (vm_compute; discriminate).
  exact (proj1 (proj1 post_stores_trimmed db1
                      (JObj [(lit "text", JStr (lit "  Walk the dog "))])
                      (lit "  Walk the dog ") env2 eq_refl Ht eq_refl)).
Defined.

(** C8, as stated, fails: the text [\ud800x], a lone high surrogate and an
    x, is accepted and is its own [trim], but what is stored is U+FFFD and
    an x. *)
Lemma post_lone_surrogate_stored :
  let s := [55296; 120]%N in
  let out := serve [] (POST_todos (Parsed (JObj [(lit "text", JStr s)])) env1) in
  status (snd out) = 201
  /\ trim s = s
  /\ option_map text (select_by_id (randomUUID env1) (fst out))
     = Some [65533; 120]%N
  /\ option_map text (select_by_id (randomUUID env1) (fst out)) <> Some (trim s).
Proof.
  split; [reflexivity|]. split; [reflexivity|]. split; [reflexivity|].
  vm_compute. discriminate.
Qed.

(** C9.  In every table reachable from the empty one through the five
    operations, the text of every row is non-empty and not made of white
    space only. *)
Theorem stored_text_not_blank (db : Db) :
  reachable db ->
  forall r, In r db -> text r <> [] /\ blank (text r) = false.
Proof.
  intros Hdb. apply Forall_forall. revert db Hdb.
  apply reachable_rows.
  - intros i s c Hs. simpl.
    split; [now apply stored_not_empty | now apply stored_not_blank].
  - intros r b H. exact H.
Qed.

Lemma stored_text_not_blank_witness :
  In row1 db1 /\ text row1 <> [] /\ blank (text row1) = false.
Proof.
  assert (Hin : In row1 db1) by (left; reflexivity).
  split; [exact Hin|].
  apply (stored_text_not_blank db1); [|exact Hin].
  unfold db1. apply reachable_serve, reachable_empty.
Defined.

(** C10.  In every reachable table the flag [completed] of every row is the
    integer 0 or 1, and so it stays after any request; every todo object in
    the body of an answer is the JSON of a stored row and carries that row's
    [completed] as the number 0 or 1, never as a JSON boolean. *)
Theorem completed_is_integer (db : Db) (req : Request) :
  reachable db ->
  let out := serve db req in
  (forall r, In r (fst out) -> completed r = 0%Z \/ completed r = 1%Z)
  /\ (forall o, In o (returned_todos (snd out)) ->
        exists r, In r (fst out)
                  /\ o = todo_json r
                  /\ (completed r = 0%Z \/ completed r = 1%Z)
                  /\ prop (lit "completed") o = Val (JNum (inject_Z (completed r)))
                  /\ forall b, prop (lit "completed") o <> Val (JBool b)).
Proof.
  intros Hdb out.
  assert (Hflag : forall d, reachable d ->
                    forall r, In r d -> completed r = 0%Z \/ completed r = 1%Z).
  { intros d Hd. apply Forall_forall. revert d Hd. apply reachable_rows.
    - intros; now left.
    - intros r [] _; simpl; auto. }
  assert (Hout : reachable (fst out)) by now apply reachable_serve.
  split; [now apply Hflag|].
  assert (Hrow : forall r, In r (fst out) ->
                   exists r', In r' (fst out)
                     /\ todo_json r = todo_json r'
                     /\ (completed r' = 0%Z \/ completed r' = 1%Z)
                     /\ prop (lit "completed") (todo_json r)
                        = Val (JNum (inject_Z (completed r')))
                     /\ forall b, prop (lit "completed") (todo_json r) <> Val (JBool b)).
  { intros r Hr. exists r.
    split; [exact Hr|]. split; [reflexivity|]. split; [now apply (Hflag (fst out))|].
    rewrite prop_completed_todo_json. split; [reflexivity | discriminate]. }
  clear Hflag Hout. subst out. revert Hrow.
  destruct req as [|b env|i|i b|i].
  - rewrite serve_GET_todos. unfold returned_todos. cbn [fst snd body].
    intros Hrow o Ho. apply in_map_iff in Ho as [r [<- Hr]].
    apply Hrow. now rewrite (select_all_desc_perm db).
  - apply serve_POST_cases.
    + intros resp Hb _ o. unfold returned_todos. cbn [snd].
      now destruct Hb as [-> | ->].
    + intros s Hs Hf r. unfold returned_todos. cbn [fst snd body].
      intros Hrow o [<-|[]]. apply Hrow. apply in_or_app. right. now left.
  - rewrite serve_GET_todo. cbn [fst snd].
    destruct (select_by_id i db) as [r|] eqn:E.
    + unfold returned_todos. cbn [body]. intros Hrow o [<-|[]].
      apply Hrow. now apply select_by_id_Some in E.
    + intros _ o [].
  - apply serve_PATCH_cases.
    + intros resp [s Hb] _ o. unfold returned_todos. cbn [snd]. now rewrite Hb.
    + intros c r Hr v. unfold returned_todos. cbn [fst snd body].
      intros Hrow o [<-|[]]. apply Hrow.
      apply (select_by_id_Some i). now apply select_update_same.
  - rewrite serve_DELETE_todo.
    destruct (select_by_id i db); intros _ o [].
Qed.

Lemma completed_is_integer_witness :
  returned_todos
    (snd (serve db1 (PATCH_todo (randomUUID env1) (completed_body (JBool true)))))
  = [todo_json (mkTodo (id row1) (text row1) 1 (createdAt row1))]
  /\ exists r,
       In r (fst (serve db1 (PATCH_todo (randomUUID env1)
                                        (completed_body (JBool true)))))
       /\ todo_json (mkTodo (id row1) (text row1) 1 (createdAt row1)) = todo_json r
       /\ (completed r = 0%Z \/ completed r = 1%Z).
Proof.
  split; [reflexivity|].
  assert (Hdb : reachable db1)
    by (unfold db1; apply reachable_serve, reachable_empty).
  destruct (proj2 (completed_is_integer db1
                     (PATCH_todo (randomUUID env1) (completed_body (JBool true)))
                     Hdb)
                  (todo_json (mkTodo (id row1) (text row1) 1 (createdAt row1)))
                  (or_introl eq_refl))
    as [r [Hin [Heq [Hflag _]]]].
  exists r. auto.
Defined.

(** * Further properties of the server *)

(** ** More on the table *)

Section TableAlgebra.

Lemma update_absent (v : Z) (i : jsstring) (db : Db) :
  select_by_id i db = None -> update_completed v i db = db.
Proof.
  intros H. unfold update_completed. rewrite <- (map_id db) at 2.
  apply map_ext_in. intros r Hr.
  now rewrite (proj2 (has_id_false i r) (proj1 (select_by_id_None i db) H r Hr)).
Qed.

Lemma update_completed_twice (v w : Z) (i : jsstring) (db : Db) :
  update_completed w i (update_completed v i db) = update_completed w i db.
Proof.
  unfold update_completed. rewrite map_map. apply map_ext. intros r.
  destruct (has_id i r) eqn:E; [|now rewrite E].
  unfold has_id in *. simpl. now rewrite E.
Qed.

Lemma select_update_other (v : Z) (i k : jsstring) (db : Db) :
  k <> i -> select_by_id k (update_completed v i db) = select_by_id k db.
Proof.
  intros Hk. unfold select_by_id, update_completed.
  induction db as [|y db IH]; simpl; [reflexivity|].
  destruct (has_id i y) eqn:Ei.
  - apply has_id_true in Ei. unfold has_id at 1. simpl. fold (has_id k y).
    rewrite (proj2 (has_id_false k y)) by congruence. exact IH.
  - destruct (has_id k y); [reflexivity | exact IH].
Qed.

Lemma delete_app_fresh (i : jsstring) (db : Db) (r : Todo) :
  select_by_id i db = None -> id r = i -> delete_by_id i (db ++ [r]) = db.
Proof.
  intros H Hr. unfold delete_by_id. rewrite filter_app. simpl.
  rewrite (proj2 (has_id_true i r) Hr). simpl. rewrite app_nil_r.
  now apply delete_absent.
Qed.

Lemma select_by_id_app_old (i : jsstring) (db : Db) (r x : Todo) :
  select_by_id i db = Some x -> select_by_id i (db ++ [r]) = Some x.
Proof.
  unfold select_by_id. induction db as [|y db IH]; simpl; [discriminate|].
  destruct (has_id i y); [trivial | exact IH].
Qed.

(** Sorting and deleting commute: the listing of what is left is what is left
    of the listing. *)
Lemma insert_desc_head (r : Todo) (l : list Todo) :
  Forall (may_follow r) l -> insert_desc r l = r :: l.
Proof.
  intros H. destruct l as [|y l]; [reflexivity|].
  simpl. apply Forall_inv in H. unfold may_follow, not_newer in H. now rewrite H.
Qed.

Lemma insert_desc_filter (p : Todo -> bool) (r : Todo) (l : list Todo) :
  StronglySorted may_follow l ->
  filter p (insert_desc r l)
  = if p r then insert_desc r (filter p l) else filter p l.
Proof.
  induction 1 as [|y l Hl IH Hy]; simpl; [now destruct (p r)|].
  destruct (str_ltb (createdAt r) (createdAt y)) eqn:E.
  - simpl. rewrite IH. destruct (p y), (p r); simpl; try reflexivity.
    now rewrite E.
  - simpl. destruct (p r) eqn:Er; [|reflexivity].
    rewrite insert_desc_head; [reflexivity|].
    assert (Hall : Forall (may_follow r) (y :: l)).
    { constructor; [exact E|]. eapply Forall_impl; [|exact Hy].
      intros z Hz. exact (not_newer_trans _ _ _ E Hz). }
    rewrite Forall_forall in *. intros z Hz. apply Hall.
    change (In z (filter p (y :: l))) in Hz. now apply filter_In in Hz.
Qed.

Lemma select_all_desc_delete (i : jsstring) (db : Db) :
  select_all_desc (delete_by_id i db) = delete_by_id i (select_all_desc db).
Proof.
  unfold delete_by_id. induction db as [|r db IH]; [reflexivity|].
  simpl select_all_desc at 2.
  rewrite insert_desc_filter by apply select_all_desc_sorted.
  simpl. destruct (negb (has_id i r)); simpl; now rewrite IH.
Qed.

Lemma insert_desc_map (f : Todo -> Todo) (r : Todo) (l : list Todo) :
  (forall x, createdAt (f x) = createdAt x) ->
  insert_desc (f r) (map f l) = map f (insert_desc r l).
Proof.
  intros Hf. induction l as [|y l IH]; [reflexivity|].
  simpl. rewrite !Hf. destruct (str_ltb (createdAt r) (createdAt y)); simpl;
    [now rewrite IH | reflexivity].
Qed.

Lemma select_all_desc_update (v : Z) (i : jsstring) (db : Db) :
  select_all_desc (update_completed v i db)
  = update_completed v i (select_all_desc db).
Proof.
  unfold update_completed.
  set (f := fun r => if has_id i r
                     then mkTodo (id r) (text r) v (createdAt r) else r).
  induction db as [|r db IH]; [reflexivity|].
  simpl. rewrite IH. apply insert_desc_map.
  intros x. unfold f. now destruct (has_id i x).
Qed.

Lemma select_all_desc_newest (r : Todo) (db : Db) :
  (forall x, In x db -> str_ltb (createdAt x) (createdAt r) = true) ->
  select_all_desc (db ++ [r]) = r :: select_all_desc db.
Proof.
  intros H. unfold select_all_desc. rewrite fold_right_app. simpl.
  induction db as [|y db IH]; [reflexivity|].
  simpl. rewrite IH by (intros x Hx; apply H; now right).
  simpl. now rewrite (H y (or_introl eq_refl)).
Qed.

End TableAlgebra.

(** ** The outcomes of POST and PATCH *)

Section Outcomes.

Lemma truthy_trim (s : jsstring) :
  truthy (Val (JStr (trim s))) = negb (blank s).
Proof.
  destruct (blank s) eqn:E.
  - apply trim_nil_iff in E. now rewrite E.
  - simpl. destruct (trim s) eqn:Et; [|reflexivity].
    apply trim_nil_iff in Et. congruence.
Qed.

Lemma blank_nonempty (s : jsstring) : blank s = false -> truthy (Val (JStr s)) = true.
Proof. destruct s; [discriminate | reflexivity]. Qed.

(** POST of a body whose [text] is the string [s]. *)
Lemma serve_POST_string (db : Db) (j : json) (s : jsstring) (env : Env) :
  prop (lit "text") j = Val (JStr s) ->
  serve db (POST_todos (Parsed j) env)
  = if blank s then
      (db, mkResponse 400 (Text "Invalid todo text") corsHeaders)
    else
      match select_by_id (randomUUID env) db with
      | Some _ => (db, mkResponse 500 (Text "Internal Server Error") [])
      | None =>
          (db ++ [mkTodo (randomUUID env) (toWellFormed (trim s)) 0 (toISOString env)],
           mkResponse 201
             (Json (todo_json (mkTodo (randomUUID env) (toWellFormed (trim s)) 0
                                      (toISOString env))))
             corsHeaders)
      end.
Proof.
  intros Hp. destruct (blank s) eqn:Eb.
  - unfold serve, routes, todos_POST, bind. simpl req_json. unfold ret at 1.
    rewrite (destructure_ok _ _ _ (prop_str_not_null _ _ _ Hp)), Hp.
    unfold str_of. rewrite truthy_trim, Eb. simpl.
    now rewrite orb_true_r.
  - assert (Ht : trim s <> []).
    { intros E. apply trim_nil_iff in E. congruence. }
    destruct (select_by_id (randomUUID env) db) as [r|] eqn:Ef;
      [|now apply serve_POST_created].
    unfold serve, routes, todos_POST, bind. simpl req_json. unfold ret at 1.
    rewrite (destructure_ok _ _ _ (prop_str_not_null _ _ _ Hp)), Hp.
    unfold str_of. rewrite truthy_trim, Eb, (blank_nonempty _ Eb). simpl.
    unfold run_insert. now rewrite (insert_taken _ _ _ _ _ Ef).
Qed.

(** POST of a body, not [null], whose [text] is not a string. *)
Lemma serve_POST_not_string (db : Db) (j : json) (env : Env) :
  j <> JNull ->
  (forall s, prop (lit "text") j <> Val (JStr s)) ->
  serve db (POST_todos (Parsed j) env)
  = (db, mkResponse 400 (Text "Invalid todo text") corsHeaders).
Proof.
  intros Hj Hs. unfold serve, routes, todos_POST, bind. simpl req_json.
  unfold ret at 1. rewrite (destructure_ok _ _ _ Hj).
  destruct (prop (lit "text") j) as [|[|b|q|s|l|m]];
    try (simpl; rewrite ?orb_true_r; reflexivity).
  now destruct (Hs s).
Qed.

Lemma serve_unreadable_body (db : Db) (b : Body) :
  b = Unparseable \/ b = Parsed JNull ->
  (forall env, serve db (POST_todos b env)
               = (db, mkResponse 500 (Text "Internal Server Error") []))
  /\ (forall i, serve db (PATCH_todo i b)
                = (db, mkResponse 500 (Text "Internal Server Error") [])).
Proof. intros [-> | ->]; split; reflexivity. Qed.

(** Every body is unreadable, or parsed to a value other than [null]. *)
Lemma body_cases (b : Body) :
  (b = Unparseable \/ b = Parsed JNull) \/ exists j, b = Parsed j /\ j <> JNull.
Proof.
  destruct b as [|j]; [now left; left|].
  destruct j; try (right; eexists; split; [reflexivity | discriminate]).
  now left; right.
Qed.

(** A value is a string or is not. *)
Lemma string_cases (v : value) :
  (exists s, v = Val (JStr s)) \/ (forall s, v <> Val (JStr s)).
Proof.
  destruct v as [|[|b|q|s|l|m]]; try (right; discriminate).
  left. now exists s.
Qed.

Lemma bool_cases (v : value) :
  (exists c, v = Val (JBool c)) \/ (forall c, v <> Val (JBool c)).
Proof.
  destruct v as [|[|b|q|s|l|m]]; try (right; discriminate).
  left. now exists b.
Qed.

Lemma serve_PATCH_not_bool (db : Db) (i : jsstring) (j : json) :
  j <> JNull ->
  (forall c, prop (lit "completed") j <> Val (JBool c)) ->
  serve db (PATCH_todo i (Parsed j))
  = (db, mkResponse 400 (Text "Invalid request") corsHeaders).
Proof.
  intros Hj Hc. apply serve_PATCH_invalid; [exact Hj|].
  destruct (prop (lit "completed") j) as [|[|c|q|s|l|m]]; simpl; try discriminate.
  now destruct (Hc c).
Qed.

End Outcomes.

(** ** POST: validation and failure *)

(** X1.  A POST whose body is a JSON value other than [null] and whose [text]
    is missing, not a string, empty or made of white space only is answered
    400 ["Invalid todo text"] and leaves the table as it is. *)
Theorem post_rejects_invalid_text (db : Db) (j : json) (env : Env) :
  j <> JNull ->
  (forall s, prop (lit "text") j = Val (JStr s) -> blank s = true) ->
  serve db (POST_todos (Parsed j) env)
  = (db, mkResponse 400 (Text "Invalid todo text") corsHeaders).
Proof.
  intros Hj Hb.
  destruct (string_cases (prop (lit "text") j)) as [[s Hs]|Hn].
  - now rewrite (serve_POST_string _ _ _ _ Hs), (Hb s Hs).
  - now apply serve_POST_not_string.
Qed.

Lemma post_rejects_invalid_text_witness :
  serve db1 (POST_todos (text_body "   ") env2)
  = (db1, mkResponse 400 (Text "Invalid todo text") corsHeaders)
  /\ serve db1 (POST_todos (Parsed (JObj [(lit "text", JNum (inject_Z 123))])) env2)
     = (db1, mkResponse 400 (Text "Invalid todo text") corsHeaders)
  /\ serve db1 (POST_todos (Parsed (JObj [])) env2)
     = (db1, mkResponse 400 (Text "Invalid todo text") corsHeaders).
Proof.
  split; [|split]; apply post_rejects_invalid_text; try discriminate.
  intros s H. vm_compute in H. injection H as <-. reflexivity.
Defined.

(** X2.  A POST with a valid text for which [crypto.randomUUID()] returns an
    id that a row already has fails in the INSERT (primary key): the [error]
    callback answers 500 and the table is left as it is. *)
Theorem post_id_collision
        (db : Db) (j : json) (s : jsstring) (env : Env) (r : Todo) :
  prop (lit "text") j = Val (JStr s) ->
  blank s = false ->
  select_by_id (randomUUID env) db = Some r ->
  serve db (POST_todos (Parsed j) env)
  = (db, mkResponse 500 (Text "Internal Server Error") []).
Proof.
  intros Hp Hb Hr. now rewrite (serve_POST_string _ _ _ _ Hp), Hb, Hr.
Qed.

Lemma post_id_collision_witness :
  serve db1 (POST_todos (text_body "Walk the dog") env1)
  = (db1, mkResponse 500 (Text "Internal Server Error") []).
Proof.
  exact (post_id_collision db1 (JObj [(lit "text", JStr (lit "Walk the dog"))])
           (lit "Walk the dog") env1 row1 eq_refl eq_refl eq_refl).
Defined.

(** X3.  A POST is answered 201 exactly when its body parses to a value whose
    [text] is a string that is not white space only and the generated id is
    not yet stored; in every other case the table is left as it is. *)
Theorem post_created_iff (db : Db) (b : Body) (env : Env) :
  (status (snd (serve db (POST_todos b env))) = 201
   <-> exists j s, b = Parsed j
                   /\ prop (lit "text") j = Val (JStr s)
                   /\ blank s = false
                   /\ select_by_id (randomUUID env) db = None)
  /\ (status (snd (serve db (POST_todos b env))) <> 201 ->
      fst (serve db (POST_todos b env)) = db).
Proof.
  destruct (body_cases b) as [Hb | [j [-> Hj]]].
  - destruct (serve_unreadable_body db b Hb) as [-> _].
    split; [split; [discriminate|] | reflexivity].
    intros [j [s [-> [Hp _]]]]. destruct Hb as [Hb|Hb]; [discriminate|].
    injection Hb as ->. discriminate.
  - destruct (string_cases (prop (lit "text") j)) as [[s Hs]|Hn].
    + rewrite (serve_POST_string _ _ _ _ Hs).
      destruct (blank s) eqn:Eb.
      * split; [split; [discriminate|] | reflexivity].
        intros [j' [s' [E [Hp [Hb' _]]]]]. injection E as <-. congruence.
      * destruct (select_by_id (randomUUID env) db) as [r|] eqn:Ef.
        -- split; [split; [discriminate|] | reflexivity].
           intros [j' [s' [_ [_ [_ Hf]]]]]. discriminate.
        -- split; [split; [|reflexivity] | intros H; now destruct H].
           intros _. now exists j, s.
    + rewrite (serve_POST_not_string _ _ _ Hj Hn).
      split; [split; [discriminate|] | reflexivity].
      intros [j' [s' [E [Hp _]]]]. injection E as <-. now destruct (Hn s').
Qed.

Lemma post_created_iff_witness :
  status (snd (serve db1 (POST_todos (text_body "Walk the dog") env2))) = 201
  /\ fst (serve db1 (POST_todos (text_body " ") env2)) = db1.
Proof.
  split.
  - apply (proj1 (post_created_iff db1 (text_body "Walk the dog") env2)).
    exists (JObj [(lit "text", JStr (lit "Walk the dog"))]), (lit "Walk the dog").
    repeat split.
  - apply (proj2 (post_created_iff db1 (text_body " ") env2)). discriminate.
Defined.

(** X4.  A body that does not parse, or that is the JSON literal [null],
    makes PATCH throw before any check, and [null] does the same to POST: the
    answer is 500 ["Internal Server Error"] without CORS headers, for a stored
    id as for any other, and the table is left as it is. *)
Theorem unreadable_body_500 (db : Db) (i : jsstring) (env : Env) :
  serve db (POST_todos (Parsed JNull) env)
  = (db, mkResponse 500 (Text "Internal Server Error") [])
  /\ serve db (PATCH_todo i Unparseable)
     = (db, mkResponse 500 (Text "Internal Server Error") [])
  /\ serve db (PATCH_todo i (Parsed JNull))
     = (db, mkResponse 500 (Text "Internal Server Error") []).
Proof. repeat split. Qed.

(** ** PATCH: outcomes and repetition *)

(** X5.  A PATCH with a boolean [completed] on an id that no row has is
    answered 404 ["Todo not found"] and leaves the table as it is. *)
Theorem patch_absent_id_404 (db : Db) (i : jsstring) (j : json) (c : bool) :
  prop (lit "completed") j = Val (JBool c) ->
  (forall r, In r db -> id r <> i) ->
  serve db (PATCH_todo i (Parsed j))
  = (db, mkResponse 404 (Text "Todo not found") corsHeaders).
Proof.
  intros Hp Hi. apply select_by_id_None in Hi.
  now rewrite (serve_PATCH_bool _ _ _ _ Hp), Hi.
Qed.

Lemma patch_absent_id_404_witness :
  serve db1 (PATCH_todo (randomUUID env2) (completed_body (JBool true)))
  = (db1, mkResponse 404 (Text "Todo not found") corsHeaders).
Proof.
  apply (patch_absent_id_404 db1 (randomUUID env2)
           (JObj [(lit "completed", JBool true)]) true eq_refl).
  intros r [<-|[]]. vm_compute. discriminate.
Defined.

(** X6.  A PATCH is answered 200 exactly when its body parses to a value
    whose [completed] is a boolean and a row has the id; in every other case
    the table is left as it is. *)
Theorem patch_ok_iff (db : Db) (i : jsstring) (b : Body) :
  (status (snd (serve db (PATCH_todo i b))) = 200
   <-> exists j c r, b = Parsed j
                     /\ prop (lit "completed") j = Val (JBool c)
                     /\ select_by_id i db = Some r)
  /\ (status (snd (serve db (PATCH_todo i b))) <> 200 ->
      fst (serve db (PATCH_todo i b)) = db).
Proof.
  destruct (body_cases b) as [Hb | [j [-> Hj]]].
  - destruct (serve_unreadable_body db b Hb) as [_ H]. rewrite H.
    split; [split; [discriminate|] | reflexivity].
    intros [j [c [r [-> [Hp _]]]]]. destruct Hb as [Hb|Hb]; [discriminate|].
    injection Hb as ->. discriminate.
  - destruct (bool_cases (prop (lit "completed") j)) as [[c Hc]|Hn].
    + rewrite (serve_PATCH_bool _ _ _ _ Hc).
      destruct (select_by_id i db) as [r|] eqn:Er.
      * split; [split; [|reflexivity] | intros H; now destruct H].
        intros _. now exists j, c, r.
      * split; [split; [discriminate|] | reflexivity].
        intros [j' [c' [r' [_ [_ Hr]]]]]. discriminate.
    + rewrite (serve_PATCH_not_bool _ _ _ Hj Hn).
      split; [split; [discriminate|] | reflexivity].
      intros [j' [c' [r' [E [Hp _]]]]]. injection E as <-. now destruct (Hn c').
Qed.

Lemma patch_ok_iff_witness :
  status (snd (serve db1 (PATCH_todo (randomUUID env1)
                                     (completed_body (JBool false))))) = 200
  /\ fst (serve db1 (PATCH_todo (randomUUID env1)
                                (completed_body (JNum (inject_Z 1))))) = db1.
Proof.
  split.
  - apply (proj1 (patch_ok_iff db1 (randomUUID env1)
                               (completed_body (JBool false)))).
    exists (JObj [(lit "completed", JBool false)]), false, row1.
    split; [reflexivity|]. split; reflexivity.
  - apply (proj2 (patch_ok_iff db1 (randomUUID env1)
                               (completed_body (JNum (inject_Z 1))))).
    discriminate.
Defined.

(** X7.  PATCH is idempotent: the same PATCH sent again gets the same answer
    and leaves the table as the first one left it. *)
Theorem patch_idempotent (db : Db) (i : jsstring) (b : Body) :
  serve (fst (serve db (PATCH_todo i b))) (PATCH_todo i b)
  = serve db (PATCH_todo i b).
Proof.
  destruct (body_cases b) as [Hb | [j [-> Hj]]].
  - destruct (serve_unreadable_body db b Hb) as [_ H].
    rewrite (H i). cbn [fst]. apply H.
  - destruct (bool_cases (prop (lit "completed") j)) as [[c Hc]|Hn].
    + rewrite (serve_PATCH_bool db _ _ _ Hc).
      destruct (select_by_id i db) as [r|] eqn:Er; cbn [fst].
      * rewrite (serve_PATCH_bool _ _ _ _ Hc).
        rewrite (select_update_same _ _ _ _ Er), update_completed_twice.
        reflexivity.
      * now rewrite (serve_PATCH_bool _ _ _ _ Hc), Er.
    + rewrite (serve_PATCH_not_bool db _ _ Hj Hn). cbn [fst].
      now apply serve_PATCH_not_bool.
Qed.

(** ** Requests one after another *)

(** X8.  What a POST answers with 201 is what GET by the generated id answers
    next, with status 200. *)
Theorem post_then_get (db : Db) (b : Body) (env : Env) :
  status (snd (serve db (POST_todos b env))) = 201 ->
  let posted := serve db (POST_todos b env) in
  let got := serve (fst posted) (GET_todo (randomUUID env)) in
  fst got = fst posted
  /\ status (snd got) = 200
  /\ body (snd got) = body (snd posted)
  /\ headers (snd got) = headers (snd posted).
Proof.
  intros H posted got. subst got posted.
  apply (proj1 (post_created_iff db b env)) in H as [j [s [-> [Hp [Hb Hf]]]]].
  rewrite (serve_POST_string _ _ _ _ Hp), Hb, Hf. cbn [fst snd].
  rewrite serve_GET_todo.
  rewrite (select_by_id_app_fresh _ _
             (mkTodo (randomUUID env) (toWellFormed (trim s)) 0 (toISOString env)) Hf eq_refl).
  repeat split.
Qed.

Lemma post_then_get_witness :
  body (snd (serve db1 (GET_todo (randomUUID env1)))) = Json (todo_json row1).
Proof.
  assert (H : status (snd (serve [] (POST_todos (text_body "Buy milk") env1))) = 201)
    by reflexivity.
  exact (proj1 (proj2 (proj2 (post_then_get [] (text_body "Buy milk") env1 H)))).
Defined.

(** X9.  What a PATCH answers with 200 is what GET by that id answers next:
    the row with the new flag. *)
Theorem patch_then_get (db : Db) (i : jsstring) (b : Body) :
  status (snd (serve db (PATCH_todo i b))) = 200 ->
  serve (fst (serve db (PATCH_todo i b))) (GET_todo i)
  = serve db (PATCH_todo i b).
Proof.
  intros H.
  apply (proj1 (patch_ok_iff db i b)) in H as [j [c [r [-> [Hp Hr]]]]].
  rewrite (serve_PATCH_bool _ _ _ _ Hp), Hr. cbn [fst].
  now rewrite serve_GET_todo, (select_update_same _ _ _ _ Hr).
Qed.

Lemma patch_then_get_witness :
  serve (fst (serve db1 (PATCH_todo (randomUUID env1) (completed_body (JBool true)))))
        (GET_todo (randomUUID env1))
  = serve db1 (PATCH_todo (randomUUID env1) (completed_body (JBool true))).
Proof.
  apply patch_then_get. reflexivity.
Defined.

(** X10.  Deleting the todo a POST has just created gives back the table as
    it was before the POST. *)
Theorem post_then_delete (db : Db) (b : Body) (env : Env) :
  status (snd (serve db (POST_todos b env))) = 201 ->
  serve (fst (serve db (POST_todos b env))) (DELETE_todo (randomUUID env))
  = (db, mkResponse 204 NoBody corsHeaders).
Proof.
  intros H.
  apply (proj1 (post_created_iff db b env)) in H as [j [s [-> [Hp [Hb Hf]]]]].
  rewrite (serve_POST_string _ _ _ _ Hp), Hb, Hf. cbn [fst].
  rewrite serve_DELETE_todo.
  rewrite (select_by_id_app_fresh _ _
             (mkTodo (randomUUID env) (toWellFormed (trim s)) 0 (toISOString env)) Hf eq_refl).
  now rewrite (delete_app_fresh _ _
                 (mkTodo (randomUUID env) (toWellFormed (trim s)) 0 (toISOString env))
                 Hf eq_refl).
Qed.

Lemma post_then_delete_witness :
  serve (fst (serve db1 (POST_todos (text_body "Walk the dog") env2)))
        (DELETE_todo (randomUUID env2))
  = (db1, mkResponse 204 NoBody corsHeaders).
Proof.
  apply post_then_delete. reflexivity.
Defined.

(** X11.  After a DELETE of an id, whatever it answered, GET by that id is
    answered 404. *)
Theorem delete_then_get (db : Db) (i : jsstring) :
  snd (serve (fst (serve db (DELETE_todo i))) (GET_todo i))
  = mkResponse 404 (Text "Todo not found") corsHeaders.
Proof.
  rewrite serve_DELETE_todo.
  destruct (select_by_id i db) as [r|] eqn:E; cbn [fst]; rewrite serve_GET_todo.
  - now rewrite select_delete_same.
  - now rewrite E.
Qed.

(** ** The listing after a change *)

(** X12.  After a DELETE of an id, GET /api/todos lists what it listed before
    without the rows of that id, the other rows in the order they had. *)
Theorem list_after_delete (db : Db) (i : jsstring) :
  body (snd (serve (fst (serve db (DELETE_todo i))) GET_todos))
  = Json (JArr (map todo_json
                    (filter (fun r => negb (str_eqb (id r) i))
                            (select_all_desc db)))).
Proof.
  rewrite serve_GET_todos. cbn [snd body]. do 3 f_equal.
  change (filter (fun r => negb (str_eqb (id r) i)) (select_all_desc db))
    with (delete_by_id i (select_all_desc db)).
  rewrite <- select_all_desc_delete. f_equal.
  rewrite serve_DELETE_todo.
  destruct (select_by_id i db) eqn:E; cbn [fst]; [reflexivity|].
  symmetry. now apply delete_absent.
Qed.

(** X13.  After a PATCH answered 200, GET /api/todos lists the rows in the
    order it listed them before; only the flag of the rows of that id is new. *)
Theorem list_after_patch (db : Db) (i : jsstring) (j : json) (c : bool) (r : Todo) :
  prop (lit "completed") j = Val (JBool c) ->
  select_by_id i db = Some r ->
  body (snd (serve (fst (serve db (PATCH_todo i (Parsed j)))) GET_todos))
  = Json (JArr (map (fun x => todo_json
                        (if str_eqb (id x) i
                         then mkTodo (id x) (text x) (if c then 1 else 0)%Z
                                     (createdAt x)
                         else x))
                    (select_all_desc db))).
Proof.
  intros Hp Hr. rewrite (serve_PATCH_bool _ _ _ _ Hp), Hr. cbn [fst].
  rewrite serve_GET_todos. cbn [snd body].
  rewrite select_all_desc_update. unfold update_completed, has_id.
  now rewrite map_map.
Qed.

Lemma list_after_patch_witness :
  body (snd (serve (fst (serve db1 (PATCH_todo (randomUUID env1)
                                               (completed_body (JBool true)))))
                   GET_todos))
  = Json (JArr [todo_json (mkTodo (randomUUID env1) (lit "Buy milk") 1
                                  (toISOString env1))]).
Proof.
  exact (list_after_patch db1 (randomUUID env1)
           (JObj [(lit "completed", JBool true)]) true row1 eq_refl eq_refl).
Defined.

(** X14.  A todo posted with a createdAt newer than that of every stored row
    is the first of the next listing, in front of the former listing. *)
Theorem list_after_post (db : Db) (j : json) (s : jsstring) (env : Env) :
  prop (lit "text") j = Val (JStr s) ->
  blank s = false ->
  select_by_id (randomUUID env) db = None ->
  (forall x, In x db -> str_ltb (createdAt x) (toISOString env) = true) ->
  body (snd (serve (fst (serve db (POST_todos (Parsed j) env))) GET_todos))
  = Json (JArr (todo_json (mkTodo (randomUUID env) (toWellFormed (trim s)) 0 (toISOString env))
                :: map todo_json (select_all_desc db))).
Proof.
  intros Hp Hb Hf Hnew. rewrite (serve_POST_string _ _ _ _ Hp), Hb, Hf.
  cbn [fst]. rewrite serve_GET_todos. cbn [snd body].
  now rewrite select_all_desc_newest.
Qed.

Lemma list_after_post_witness :
  body (snd (serve (fst (serve db1 (POST_todos (text_body "Walk the dog") env2)))
                   GET_todos))
  = Json (JArr [ todo_json (mkTodo (randomUUID env2) (toWellFormed (trim (lit "Walk the dog"))) 0
                                   (toISOString env2));
                 todo_json row1 ]).
Proof.
  apply (list_after_post db1 (JObj [(lit "text", JStr (lit "Walk the dog"))])
           (lit "Walk the dog") env2 eq_refl eq_refl eq_refl).
  intros x [<-|[]]. reflexivity.
Defined.

(** ** Invariants of the stored rows *)

(** X15.  In every reachable table no two rows share an id, and GET by the id
    of a stored row is answered 200 with that very row. *)
Theorem every_row_retrievable (db : Db) :
  reachable db ->
  NoDup (map id db)
  /\ forall r, In r db ->
       serve db (GET_todo (id r))
       = (db, mkResponse 200 (Json (todo_json r)) corsHeaders).
Proof.
  intros Hdb. pose proof (reachable_ids_unique db Hdb) as Hnd.
  split; [exact Hnd|].
  intros r Hr. now rewrite serve_GET_todo, (select_by_id_unique db r Hnd Hr).
Qed.

Lemma every_row_retrievable_witness :
  serve db1 (GET_todo (id row1))
  = (db1, mkResponse 200 (Json (todo_json row1)) corsHeaders).
Proof.
  assert (Hdb : reachable db1)
    by (unfold db1; apply reachable_serve, reachable_empty).
  apply (proj2 (every_row_retrievable db1 Hdb) row1). now left.
Defined.

(** X16.  In every reachable table the text of every row is stored trimmed:
    trimming it again changes nothing, and neither its first nor its last
    code unit is white space. *)
Theorem stored_text_trimmed (db : Db) :
  reachable db ->
  forall r, In r db ->
    trim (text r) = text r
    /\ (forall c u, text r = c :: u -> isWhiteSpace c = false)
    /\ (forall u c, text r = u ++ [c] -> isWhiteSpace c = false).
Proof.
  intros Hdb. apply Forall_forall. revert db Hdb.
  apply reachable_rows.
  - intros i s c _. simpl. split; [apply stored_trimmed|]. split.
    + intros c0 u H. exact (stored_first _ _ _ H).
    + intros u c0 H. exact (stored_last _ _ _ H).
  - intros r b H. exact H.
Qed.

Lemma stored_text_trimmed_witness :
  trim (text row1) = text row1.
Proof.
  assert (Hdb : reachable db1)
    by (unfold db1; apply reachable_serve, reachable_empty).
  apply (stored_text_trimmed db1 Hdb row1). now left.
Defined.



(** ** Answers and effects, route by route *)

Section Shapes.

(** The four outcomes of a POST. *)
Lemma serve_POST_shape (db : Db) (b : Body) (env : Env)
      (P : Db * Response -> Prop) :
  P (db, mkResponse 400 (Text "Invalid todo text") corsHeaders) ->
  P (db, mkResponse 500 (Text "Internal Server Error") []) ->
  (forall r, select_by_id (randomUUID env) db = None ->
             id r = randomUUID env ->
             P (db ++ [r], mkResponse 201 (Json (todo_json r)) corsHeaders)) ->
  P (serve db (POST_todos b env)).
Proof.
  intros H400 H500 H201.
  destruct (body_cases b) as [Hb | [j [-> Hj]]].
  - destruct (serve_unreadable_body db b Hb) as [-> _]. exact H500.
  - destruct (string_cases (prop (lit "text") j)) as [[s Hs]|Hn].
    + rewrite (serve_POST_string _ _ _ _ Hs).
      destruct (blank s); [exact H400|].
      destruct (select_by_id (randomUUID env) db) eqn:Hf; [exact H500|].
      now apply H201.
    + now rewrite (serve_POST_not_string _ _ _ Hj Hn).
Qed.

(** The four outcomes of a PATCH. *)
Lemma serve_PATCH_shape (db : Db) (i : jsstring) (b : Body)
      (P : Db * Response -> Prop) :
  P (db, mkResponse 400 (Text "Invalid request") corsHeaders) ->
  P (db, mkResponse 404 (Text "Todo not found") corsHeaders) ->
  P (db, mkResponse 500 (Text "Internal Server Error") []) ->
  (forall (c : bool) r,
      select_by_id i db = Some r ->
      P (update_completed (if c then 1 else 0)%Z i db,
         mkResponse 200
           (Json (todo_json (mkTodo (id r) (text r) (if c then 1 else 0)%Z
                                    (createdAt r))))
           corsHeaders)) ->
  P (serve db (PATCH_todo i b)).
Proof.
  intros H400 H404 H500 H200.
  destruct (body_cases b) as [Hb | [j [-> Hj]]].
  - destruct (serve_unreadable_body db b Hb) as [_ H]. rewrite H. exact H500.
  - destruct (bool_cases (prop (lit "completed") j)) as [[c Hc]|Hn].
    + rewrite (serve_PATCH_bool _ _ _ _ Hc).
      destruct (select_by_id i db) eqn:Hr; [now apply H200 | exact H404].
    + now rewrite (serve_PATCH_not_bool _ _ _ Hj Hn).
Qed.

End Shapes.

(** X18.  The status of an answer, route by route: the preflight and the
    listing always 200; POST 201, 400 or 500; GET by id 200 or 404; PATCH 200,
    400, 404 or 500; DELETE 204 or 404; the fallback always 404. *)
Theorem status_by_route (db : Db) (rt : Route) :
  let st := status (snd (server db rt)) in
  match rt with
  | Preflight => st = 200
  | Api GET_todos => st = 200
  | Api (POST_todos _ _) => st = 201 \/ st = 400 \/ st = 500
  | Api (GET_todo _) => st = 200 \/ st = 404
  | Api (PATCH_todo _ _) => st = 200 \/ st = 400 \/ st = 404 \/ st = 500
  | Api (DELETE_todo _) => st = 204 \/ st = 404
  | Unmatched => st = 404
  end.
Proof.
  destruct rt as [|[|b env|i|i b|i]|]; cbn [server]; try reflexivity.
  - apply serve_POST_shape; cbn; auto.
  - rewrite serve_GET_todo. destruct (select_by_id i db); cbn; auto.
  - apply serve_PATCH_shape; cbn; auto.
  - rewrite serve_DELETE_todo. destruct (select_by_id i db); cbn; auto.
Qed.

(** X19.  The table changes only with a POST answered 201, a PATCH answered
    200 or a DELETE answered 204: no preflight, GET, unmatched request or
    request answered 400, 404 or 500 writes to it. *)
Theorem table_changes_only_on_success (db : Db) (rt : Route) :
  fst (server db rt) <> db ->
  (exists b env, rt = Api (POST_todos b env)
                 /\ status (snd (server db rt)) = 201)
  \/ (exists i b, rt = Api (PATCH_todo i b)
                  /\ status (snd (server db rt)) = 200)
  \/ (exists i, rt = Api (DELETE_todo i)
                /\ status (snd (server db rt)) = 204).
Proof.
  destruct rt as [|[|b env|i|i b|i]|]; cbn [server];
    try (intros H; now destruct H).
  - intros H. left. exists b, env. split; [reflexivity|].
    revert H. apply serve_POST_shape; cbn;
      [intros H; now destruct H | intros H; now destruct H | reflexivity].
  - rewrite serve_GET_todo. intros H; now destruct H.
  - intros H. right; left. exists i, b. split; [reflexivity|].
    revert H. apply serve_PATCH_shape; cbn;
      [intros H; now destruct H | intros H; now destruct H
       | intros H; now destruct H | reflexivity].
  - intros H. right; right. exists i. split; [reflexivity|].
    revert H. rewrite serve_DELETE_todo.
    destruct (select_by_id i db); cbn; [reflexivity | intros H; now destruct H].
Qed.

Lemma table_changes_only_on_success_witness :
  (exists b env, Api (POST_todos (text_body "Buy milk") env1) = Api (POST_todos b env)
                 /\ status (snd (server [] (Api (POST_todos (text_body "Buy milk") env1))))
                    = 201)
  \/ (exists i b, Api (POST_todos (text_body "Buy milk") env1) = Api (PATCH_todo i b)
                  /\ status (snd (server [] (Api (POST_todos (text_body "Buy milk") env1))))
                     = 200)
  \/ (exists i, Api (POST_todos (text_body "Buy milk") env1) = Api (DELETE_todo i)
                /\ status (snd (server [] (Api (POST_todos (text_body "Buy milk") env1))))
                   = 204).
Proof.
  apply (table_changes_only_on_success [] (Api (POST_todos (text_body "Buy milk") env1))).
  vm_compute. discriminate.
Defined.

(** X20.  Every answer of the preflight and of the five handlers is given
    the three CORS headers, whatever its status; the 500 of the [error]
    callback and the 404 of the fallback are given none of them. *)
Theorem cors_headers (db : Db) (rt : Route) :
  let resp := snd (server db rt) in
  (rt = Unmatched \/ status resp = 500 ->
   forall k v, In (k, v) corsHeaders -> ~ sets_header k resp)
  /\ (rt <> Unmatched -> status resp <> 500 ->
      forall h, In h corsHeaders -> In h (headers resp)).
Proof.
  assert (Hnone : forall resp, headers resp = [] ->
                    forall k v, In (k, v) corsHeaders -> ~ sets_header k resp).
  { intros resp E k v _ [w Hw]. now rewrite E in Hw. }
  destruct rt as [|[|b env|i|i b|i]|]; cbn [server].
  - split; [intros [H|H]; discriminate | auto].
  - split; [intros [H|H]; discriminate | auto].
  - apply serve_POST_shape; cbn [snd]; intros;
      (split; [intros [H'|H']; try discriminate; now apply Hnone
              | intros _ H'; cbn in *; auto; now destruct H']).
  - rewrite serve_GET_todo. destruct (select_by_id i db); cbn [snd];
      (split; [intros [H|H]; discriminate | auto]).
  - apply serve_PATCH_shape; cbn [snd]; intros;
      (split; [intros [H'|H']; try discriminate; now apply Hnone
              | intros _ H'; cbn in *; auto; now destruct H']).
  - rewrite serve_DELETE_todo. destruct (select_by_id i db); cbn [snd];
      (split; [intros [H|H]; discriminate | auto]).
  - split; [intros _; now apply Hnone | intros H; now destruct H].
Qed.

Lemma cors_headers_witness :
  ~ sets_header "Access-Control-Allow-Origin"
      (snd (server db1 (Api (POST_todos Unparseable env2))))
  /\ In ("Access-Control-Allow-Origin", "*")%string
        (headers (snd (server db1 (Api (GET_todo (lit "unknown")))))).
Proof.
  split.
  - apply (proj1 (cors_headers db1 (Api (POST_todos Unparseable env2)))
                 (or_intror eq_refl) _ "*"%string).
    now left.
  - apply (proj2 (cors_headers db1 (Api (GET_todo (lit "unknown"))))).
    + discriminate.
    + discriminate.
    + now left.
Defined.

(** X21.  In a reachable table a request changes the number of rows by one at
    most: a POST answered 201 adds one row, a DELETE answered 204 removes one,
    and every other answer leaves the count as it is. *)
Theorem row_count_step (db : Db) (req : Request) :
  reachable db ->
  let out := serve db req in
  (status (snd out) = 201 -> count_all (fst out) = S (count_all db))
  /\ (status (snd out) = 204 -> count_all db = S (count_all (fst out)))
  /\ (status (snd out) <> 201 -> status (snd out) <> 204 ->
      count_all (fst out) = count_all db).
Proof.
  intros Hdb out. subst out. unfold count_all.
  destruct req as [|b env|i|i b|i].
  - rewrite serve_GET_todos. cbn. repeat split; discriminate.
  - apply serve_POST_shape; cbn [fst snd status].
    + repeat split; discriminate.
    + repeat split; discriminate.
    + intros r _ _. split; [intros _; rewrite length_app; simpl; lia|].
      split; [discriminate | intros H; now destruct H].
  - rewrite serve_GET_todo. destruct (select_by_id i db); cbn;
      repeat split; discriminate.
  - apply serve_PATCH_shape; cbn [fst snd status];
      try (repeat split; discriminate).
    intros c r _. split; [discriminate|]. split; [discriminate|].
    intros _ _. apply update_completed_length.
  - rewrite serve_DELETE_todo.
    destruct (select_by_id i db) as [r|] eqn:E; cbn [fst snd status].
    + split; [discriminate|]. split; [|intros _ H; now destruct H].
      intros _. eapply delete_one; [now apply reachable_ids_unique | exact E].
    + repeat split; discriminate.
Qed.

Lemma row_count_step_witness :
  count_all (fst (serve db1 (POST_todos (text_body "Walk the dog") env2)))
  = S (count_all db1)
  /\ count_all db1
     = S (count_all (fst (serve db1 (DELETE_todo (randomUUID env1))))).
Proof.
  assert (Hdb : reachable db1)
    by (unfold db1; apply reachable_serve, reachable_empty).
  split.
  - apply (proj1 (row_count_step db1
                    (POST_todos (text_body "Walk the dog") env2) Hdb)).
    reflexivity.
  - apply (proj1 (proj2 (row_count_step db1 (DELETE_todo (randomUUID env1)) Hdb))).
    reflexivity.
Defined.

(** X22.  A stored row stays until a DELETE names its id, and its id, text
    and createdAt never change: after any other request the table has a row
    with the same id, text and createdAt, and it is the very same row unless
    the request is a PATCH of that id. *)
Theorem rows_persist (db : Db) (req : Request) (r : Todo) :
  In r db ->
  req <> DELETE_todo (id r) ->
  exists r', In r' (fst (serve db req))
             /\ id r' = id r /\ text r' = text r /\ createdAt r' = createdAt r
             /\ ((forall b, req <> PATCH_todo (id r) b) -> r' = r).
Proof.
  intros Hr Hreq. destruct req as [|b env|i|i b|i].
  - rewrite serve_GET_todos. now exists r.
  - apply serve_POST_shape; cbn [fst]; try (now exists r).
    intros x _ _. exists r. repeat split. apply in_or_app. now left.
  - rewrite serve_GET_todo. now exists r.
  - apply serve_PATCH_shape; cbn [fst]; try (now exists r).
    intros c x _.
    exists (if has_id i r
            then mkTodo (id r) (text r) (if c then 1 else 0)%Z (createdAt r)
            else r).
    split.
    { unfold update_completed. apply in_map_iff. now exists r. }
    destruct (has_id i r) eqn:E; cbn; repeat split.
    apply has_id_true in E. intros H. now destruct (H b); subst.
  - rewrite serve_DELETE_todo. destruct (select_by_id i db); cbn [fst];
      [|now exists r].
    exists r. repeat split. apply delete_by_id_In. split; [exact Hr|].
    intros E. apply Hreq. now rewrite E.
Qed.

Lemma rows_persist_witness :
  exists r', In r' (fst (serve db1 (PATCH_todo (randomUUID env1)
                                               (completed_body (JBool true)))))
             /\ id r' = id row1 /\ text r' = text row1
             /\ createdAt r' = createdAt row1
             /\ ((forall b, PATCH_todo (randomUUID env1) (completed_body (JBool true))
                            <> PATCH_todo (id row1) b) -> r' = row1).
Proof.
  apply (rows_persist db1
           (PATCH_todo (randomUUID env1) (completed_body (JBool true))) row1).
  - now left.
  - discriminate.
Defined.

(** ** The statements as the tests run them *)

(** X23.  On an id that no row has, the three statements by id find and change
    nothing: the SELECT gives [null], the UPDATE and the DELETE leave every
    row, and so both counts, as they are. *)
Theorem statements_on_absent_id (db : Db) (i : jsstring) (v : Z) :
  (forall r, In r db -> id r <> i) ->
  select_by_id i db = None
  /\ update_completed v i db = db
  /\ delete_by_id i db = db
  /\ count_all (update_completed v i db) = count_all db
  /\ count_all (delete_by_id i db) = count_all db
  /\ count_completed (update_completed v i db) = count_completed db.
Proof.
  intros H. apply select_by_id_None in H.
  rewrite (update_absent v i db H), (delete_absent i db H). now repeat split.
Qed.

Lemma statements_on_absent_id_witness :
  select_by_id (randomUUID env3) db1 = None
  /\ update_completed 1 (randomUUID env3) db1 = db1
  /\ delete_by_id (randomUUID env3) db1 = db1.
Proof.
  assert (H : forall r, In r db1 -> id r <> randomUUID env3).
  { intros r [<-|[]]. vm_compute. discriminate. }
  destruct (statements_on_absent_id db1 (randomUUID env3) 1 H)
    as [H1 [H2 [H3 _]]].
  split; [exact H1 | split; [exact H2 | exact H3]].
Defined.

Section Counts.

Lemma existsb_has_id_absent (i : jsstring) (db : Db) :
  ~ In i (map id db) -> existsb (has_id i) db = false.
Proof.
  intros H. apply existsb_has_id, select_by_id_None.
  intros r Hr E. apply H. rewrite <- E. now apply in_map.
Qed.

(** With every flag 0 and the ids distinct, completing the rows of [i0] and
    deleting those of another id leaves one completed row if [i0] is stored,
    and none if it is not. *)
Lemma count_completed_update_delete (i0 i1 : jsstring) (db : Db) :
  NoDup (map id db) ->
  (forall r, In r db -> completed r = 0%Z) ->
  i0 <> i1 ->
  count_completed (delete_by_id i1 (update_completed 1 i0 db))
  = if existsb (has_id i0) db then 1 else 0.
Proof.
  intros Hnd Hzero Hne. unfold count_completed, delete_by_id, update_completed.
  induction db as [|y db IH]; [reflexivity|].
  apply NoDup_cons_iff in Hnd as [Hy Hnd].
  specialize (IH Hnd (fun r Hr => Hzero r (or_intror Hr))).
  cbn [map filter existsb]. destruct (has_id i0 y) eqn:E0.
  - apply has_id_true in E0. unfold has_id at 1. cbn [id].
    rewrite (proj2 (str_eqb_neq (id y) i1)) by congruence.
    cbn [negb filter completed Z.eqb Pos.eqb List.length orb].
    rewrite IH, existsb_has_id_absent; [reflexivity | now rewrite <- E0].
  - cbn [orb]. rewrite <- IH.
    destruct (negb (has_id i1 y)); [|reflexivity].
    cbn [filter]. now rewrite (Hzero y (or_introl eq_refl)).
Qed.

End Counts.

(** X24.  What the test of mixed operations checks on five rows, for a
    table of any size: with distinct ids and every flag 0, as the INSERTs
    leave them, [UPDATE todos SET completed = 1] on the id of one stored row
    and [DELETE FROM todos] on the id of another leave one row fewer, of which
    exactly one is completed. *)
Theorem update_one_delete_another (db : Db) (r0 r1 : Todo) :
  NoDup (map id db) ->
  (forall r, In r db -> completed r = 0%Z) ->
  In r0 db -> In r1 db -> id r0 <> id r1 ->
  let db' := delete_by_id (id r1) (update_completed 1 (id r0) db) in
  S (count_all db') = count_all db
  /\ count_completed db' = 1.
Proof.
  intros Hnd Hzero H0 H1 Hne db'. subst db'. unfold count_all.
  pose proof (select_by_id_unique db r0 Hnd H0) as S0.
  pose proof (select_by_id_unique db r1 Hnd H1) as S1.
  split.
  - rewrite <- (update_completed_length 1 (id r0) db). symmetry.
    apply (delete_one (id r1) _ r1).
    + now rewrite update_completed_ids.
    + rewrite select_update_other; [exact S1 | congruence].
  - rewrite (count_completed_update_delete (id r0) (id r1) db Hnd Hzero Hne).
    destruct (existsb (has_id (id r0)) db) eqn:E; [reflexivity|].
    apply existsb_has_id in E. congruence.
Qed.

Lemma update_one_delete_another_witness :
  count_completed
    (delete_by_id (randomUUID env2)
       (update_completed 1 (randomUUID env1)
          (fst (serve db1 (POST_todos (text_body "Walk the dog") env2)))))
  = 1.
Proof.
  refine (proj2
    (update_one_delete_another
       (fst (serve db1 (POST_todos (text_body "Walk the dog") env2)))
       row1
       (mkTodo (randomUUID env2) (lit "Walk the dog") 0 (toISOString env2))
       _ _ _ _ _)).
  - vm_compute. repeat constructor; simpl; intuition discriminate.
  - intros r [<-|[<-|[]]]; reflexivity.
  - now left.
  - right. now left.
  - vm_compute. discriminate.
Defined.

(** ** Writes one after another *)

Section Sequences.

Lemma serve_DELETE_table (db : Db) (i : jsstring) :
  fst (serve db (DELETE_todo i)) = delete_by_id i db.
Proof.
  rewrite serve_DELETE_todo.
  destruct (select_by_id i db) eqn:E; cbn [fst]; [reflexivity|].
  symmetry. now apply delete_absent.
Qed.

Lemma delete_by_id_comm (i k : jsstring) (db : Db) :
  delete_by_id i (delete_by_id k db) = delete_by_id k (delete_by_id i db).
Proof.
  unfold delete_by_id. induction db as [|y db IH]; [reflexivity|].
  simpl. destruct (has_id k y) eqn:Ek, (has_id i y) eqn:Ei; simpl;
    rewrite ?Ek, ?Ei; simpl; now rewrite IH.
Qed.

End Sequences.

(** X25.  The last PATCH wins: a PATCH that would be answered 200 gets the
    same answer and leaves the same table when any PATCH of the same id has
    been served just before it. *)
Theorem patch_last_wins (db : Db) (i : jsstring) (b1 b2 : Body) :
  status (snd (serve db (PATCH_todo i b2))) = 200 ->
  serve (fst (serve db (PATCH_todo i b1))) (PATCH_todo i b2)
  = serve db (PATCH_todo i b2).
Proof.
  intros H.
  apply (proj1 (patch_ok_iff db i b2)) in H as [j [c [r [-> [Hp Hr]]]]].
  apply (serve_PATCH_shape db i b1); cbn [fst]; try reflexivity.
  intros c1 r1 Hr1. rewrite !(serve_PATCH_bool _ _ _ _ Hp).
  rewrite (select_update_same _ _ _ _ Hr1), Hr1, update_completed_twice.
  reflexivity.
Qed.

Lemma patch_last_wins_witness :
  serve (fst (serve db1 (PATCH_todo (randomUUID env1) (completed_body (JBool true)))))
        (PATCH_todo (randomUUID env1) (completed_body (JBool false)))
  = serve db1 (PATCH_todo (randomUUID env1) (completed_body (JBool false))).
Proof.
  apply patch_last_wins. reflexivity.
Defined.

(** X26.  Two DELETE requests leave the same table in either order. *)
Theorem delete_commutes (db : Db) (i k : jsstring) :
  fst (serve (fst (serve db (DELETE_todo i))) (DELETE_todo k))
  = fst (serve (fst (serve db (DELETE_todo k))) (DELETE_todo i)).
Proof.
  rewrite !serve_DELETE_table. apply delete_by_id_comm.
Qed.
